(** * Turn-by-turn navigation core of map-ui

    A shallow embedding of the navigation state held by
    [src/contexts/NavigationContext.tsx] and of the progress, off-route and
    rerouting logic of [src/components/Navigation/ActiveNavigationView.tsx],
    followed by the properties of the specification checked against it.

    JavaScript numbers are IEEE 754 binary64 values and are modelled by
    Rocq's primitive floats, so [<], [===], [Math.min], [Math.max], [||]
    and the literals behave as they do in the source, including on NaN,
    infinities and signed zeros. *)

From Stdlib Require Import Floats ZArith NArith List Bool String Lia.
From Stdlib Require Uint63.
Import ListNotations.

Set Warnings "-inexact-float".

Local Open Scope float_scope.

(** ** JavaScript numbers *)

Module JS.

(** [Boolean(x)] for a number: false on [+0], [-0] and [NaN]. *)
Definition truthy (x : float) : bool := negb ((x =? 0) || is_nan x).

(** [x || y] on numbers. *)
Definition or (x y : float) : float := if truthy x then x else y.

(** [a?.f || y], where [a] may be [undefined]. *)
Definition opt_or (x : option float) (y : float) : float :=
  match x with
  | Some v => or v y
  | None => y
  end.

Definition is_neg_zero (x : float) : bool :=
  match classify x with NZero => true | _ => false end.

Definition is_pos_zero (x : float) : bool :=
  match classify x with PZero => true | _ => false end.

(** One iteration of the loop of ECMAScript's [Math.min]: [-0] is below
    [+0], otherwise the smaller number wins. *)
Definition min_step (lowest number : float) : float :=
  if is_neg_zero number && is_pos_zero lowest then number
  else if number <? lowest then number
  else lowest.

(** [Math.min(...args)]: [NaN] when an argument is [NaN], else the least
    argument, starting from [+Infinity]. *)
Definition Math_min (args : list float) : float :=
  if existsb is_nan args then nan else fold_left min_step args infinity.

Definition max_step (highest number : float) : float :=
  if is_pos_zero number && is_neg_zero highest then number
  else if highest <? number then number
  else highest.

(** [Math.max(...args)]. *)
Definition Math_max (args : list float) : float :=
  if existsb is_nan args then nan else fold_left max_step args neg_infinity.

(** [Math.PI]. *)
Definition Math_PI : float := 0x1.921fb54442d18p+1.

(** [Math.sin], [Math.cos] and [Math.atan2] are implementation-approximated
    in ECMAScript: the embedding takes them as a parameter. *)
Record MathLib : Type := {
  Math_sin : float -> float;
  Math_cos : float -> float;
  Math_atan2 : float -> float -> float
}.

(** A [Date], by the time value handed to its constructor. *)
Inductive Date : Type := new_Date (time : float).

(** What a call evaluates to: a normal completion or a thrown error. *)
Inductive Completion (A : Type) : Type :=
| Normal (a : A)
| Throw (message : string).
Arguments Normal {A} a.
Arguments Throw {A} message.

End JS.

(** ** Data model ([src/types]) *)

(** A coordinate pair is the array [[longitude, latitude]]: [fst] is index 0
    and [snd] is index 1. *)
Definition Coord : Type := (float * float)%type.

Record LocationPoint : Type := {
  latitude : float;
  longitude : float;
  accuracy : option float;
  altitude : option float;
  altitudeAccuracy : option float;
  heading : option float;
  speed : option float;
  timestamp : float
}.

Record Maneuver : Type := {
  type : string;
  modifier : option string;
  location : Coord
}.

Module NavigationStep.
Record t : Type := {
  distance : float;
  duration : float;
  instruction : string;
  maneuver : Maneuver
}.
End NavigationStep.

Record Geometry : Type := {
  coordinates : list Coord;
  geometry_type : string
}.

Module NavigationRoute.
Record t : Type := {
  distance : float;
  duration : float;
  geometry : Geometry;
  steps : list NavigationStep.t
}.
End NavigationRoute.

Inductive NavigationMode : Type := idle | preview | active.

Module SelectedLocation.
Record t : Type := {
  coordinates : Coord;
  name : string
}.
End SelectedLocation.

Record ActiveNavigationState : Type := {
  mode : NavigationMode;
  route : option NavigationRoute.t;
  destination : option SelectedLocation.t;
  origin : option Coord;
  currentStepIndex : nat;
  distanceToNextManeuver : float;
  isOffRoute : bool;
  isRerouting : bool;
  eta : option JS.Date;
  remainingDistance : float;
  remainingDuration : float
}.

(** ** The navigation provider ([src/contexts/NavigationContext.tsx]) *)

(** The state of [NavigationProvider]: the legacy flags and the navigation
    state. *)
Record Provider : Type := {
  isNavigationActive : bool;
  showSearch : bool;
  selectedLocation : option SelectedLocation.t;
  navigationState : ActiveNavigationState
}.

Definition initialNavigationState : ActiveNavigationState := {|
  mode := idle;
  route := None;
  destination := None;
  origin := None;
  currentStepIndex := 0;
  distanceToNextManeuver := 0;
  isOffRoute := false;
  isRerouting := false;
  eta := None;
  remainingDistance := 0;
  remainingDuration := 0
|}.

Definition initialProvider : Provider := {|
  isNavigationActive := false;
  showSearch := false;
  selectedLocation := None;
  navigationState := initialNavigationState
|}.

(** [setNavigationState(f)]. *)
Definition setNavigationState
    (f : ActiveNavigationState -> ActiveNavigationState) (p : Provider) : Provider :=
  {| isNavigationActive := isNavigationActive p;
     showSearch := showSearch p;
     selectedLocation := selectedLocation p;
     navigationState := f (navigationState p) |}.

(** [calculateETA]; [now] is the time value of [new Date()]. *)
Definition calculateETA (now remainingDuration : float) : JS.Date :=
  JS.new_Date (now + remainingDuration * 1000).

(** [route.steps[i]?.distance]. *)
Definition stepDistanceAt (r : NavigationRoute.t) (i : nat) : option float :=
  option_map NavigationStep.distance (nth_error (NavigationRoute.steps r) i).

Definition setPreviewRoute (now : float) (r : NavigationRoute.t)
    (dest : SelectedLocation.t) (orig : Coord) (p : Provider) : Provider :=
  setNavigationState (fun _ => {|
    mode := preview;
    route := Some r;
    destination := Some dest;
    origin := Some orig;
    currentStepIndex := 0;
    distanceToNextManeuver := JS.opt_or (stepDistanceAt r 0) 0;
    isOffRoute := false;
    isRerouting := false;
    eta := Some (calculateETA now (NavigationRoute.duration r));
    remainingDistance := NavigationRoute.distance r;
    remainingDuration := NavigationRoute.duration r
  |}) p.

Definition with_mode (m : NavigationMode) (s : ActiveNavigationState)
    : ActiveNavigationState :=
  {| mode := m;
     route := route s;
     destination := destination s;
     origin := origin s;
     currentStepIndex := currentStepIndex s;
     distanceToNextManeuver := distanceToNextManeuver s;
     isOffRoute := isOffRoute s;
     isRerouting := isRerouting s;
     eta := eta s;
     remainingDistance := remainingDistance s;
     remainingDuration := remainingDuration s |}.

(** [startActiveNavigation]: guarded by [if (navigationState.route)]; no
    branch of it throws. *)
Definition startActiveNavigation (p : Provider) : JS.Completion Provider :=
  match route (navigationState p) with
  | Some _ =>
      JS.Normal
        {| isNavigationActive := true;
           showSearch := showSearch p;
           selectedLocation := None;
           navigationState := with_mode active (navigationState p) |}
  | None => JS.Normal p
  end.

(** The state a completion leaves behind; a throw leaves the state as it was. *)
Definition completed (p : Provider) (c : JS.Completion Provider) : Provider :=
  match c with
  | JS.Normal p' => p'
  | JS.Throw _ => p
  end.



(** The two accumulators of the [for] loop of [updateNavigationProgress],
    from index [i] to the last step. *)
Definition remainingFrom (steps : list NavigationStep.t) (i : nat) : float * float :=
  fold_left
    (fun acc st =>
       (fst acc + NavigationStep.distance st, snd acc + NavigationStep.duration st))
    (skipn i steps) (0, 0).

(** [updateNavigationProgress] for a step index that is a non-negative
    integer, as every index that [processLocationUpdate] passes is: the
    loop then reads existing steps only. For a negative or fractional
    index the source's updater throws a TypeError at
    [prev.route.steps[i].distance]; such calls are not modelled. *)
Definition updateNavigationProgress (now : float) (currentLocation : Coord)
    (distanceToNextManeuver' : float) (currentStepIndex' : nat)
    (p : Provider) : Provider :=
  setNavigationState (fun prev =>
    match route prev with
    | None => prev
    | Some r =>
        let sums := remainingFrom (NavigationRoute.steps r) currentStepIndex' in
        let remainingDuration' := snd sums in
        let currentStepDistance := JS.opt_or (stepDistanceAt r currentStepIndex') 0 in
        let remainingDistance' :=
          fst sums - currentStepDistance + distanceToNextManeuver' in
        {| mode := mode prev;
           route := route prev;
           destination := destination prev;
           origin := Some currentLocation;
           currentStepIndex := currentStepIndex';
           distanceToNextManeuver := distanceToNextManeuver';
           isOffRoute := isOffRoute prev;
           isRerouting := isRerouting prev;
           eta := Some (calculateETA now remainingDuration');
           remainingDistance := JS.Math_max [0; remainingDistance'];
           remainingDuration := JS.Math_max [0; remainingDuration'] |}
    end) p.

Definition setOffRoute (isOffRoute' : bool) (p : Provider) : Provider :=
  setNavigationState (fun prev =>
    {| mode := mode prev;
       route := route prev;
       destination := destination prev;
       origin := origin prev;
       currentStepIndex := currentStepIndex prev;
       distanceToNextManeuver := distanceToNextManeuver prev;
       isOffRoute := isOffRoute';
       isRerouting := isRerouting prev;
       eta := eta prev;
       remainingDistance := remainingDistance prev;
       remainingDuration := remainingDuration prev |}) p.

Definition setRerouting (isRerouting' : bool) (p : Provider) : Provider :=
  setNavigationState (fun prev =>
    {| mode := mode prev;
       route := route prev;
       destination := destination prev;
       origin := origin prev;
       currentStepIndex := currentStepIndex prev;
       distanceToNextManeuver := distanceToNextManeuver prev;
       isOffRoute := if isRerouting' then isOffRoute prev else false;
       isRerouting := isRerouting';
       eta := eta prev;
       remainingDistance := remainingDistance prev;
       remainingDuration := remainingDuration prev |}) p.

Definition updateRoute (now : float) (r : NavigationRoute.t) (p : Provider) : Provider :=
  setNavigationState (fun prev =>
    {| mode := mode prev;
       route := Some r;
       destination := destination prev;
       origin := origin prev;
       currentStepIndex := 0;
       distanceToNextManeuver := JS.opt_or (stepDistanceAt r 0) 0;
       isOffRoute := false;
       isRerouting := false;
       eta := Some (calculateETA now (NavigationRoute.duration r));
       remainingDistance := NavigationRoute.distance r;
       remainingDuration := NavigationRoute.duration r |}) p.

Definition endNavigation (p : Provider) : Provider :=
  {| isNavigationActive := false;
     showSearch := showSearch p;
     selectedLocation := None;
     navigationState := initialNavigationState |}.

Definition clearNavigation (p : Provider) : Provider :=
  {| isNavigationActive := false;
     showSearch := showSearch p;
     selectedLocation := None;
     navigationState := initialNavigationState |}.

(** ** Geometry and progress ([ActiveNavigationView.tsx]) *)

Section Geometry.

Context (M : JS.MathLib).

Let sin := JS.Math_sin M.
Let cos := JS.Math_cos M.
Let atan2 := JS.Math_atan2 M.

(** Haversine distance in metres between two [[longitude, latitude]] pairs. *)
Definition calculateDistanceBetweenPoints (point1 point2 : Coord) : float :=
  let R := 6371000 in
  let lat1 := (snd point1 * JS.Math_PI) / 180 in
  let lat2 := (snd point2 * JS.Math_PI) / 180 in
  let deltaLat := ((snd point2 - snd point1) * JS.Math_PI) / 180 in
  let deltaLon := ((fst point2 - fst point1) * JS.Math_PI) / 180 in
  let a :=
    sin (deltaLat / 2) * sin (deltaLat / 2) +
    cos lat1 * cos lat2 * sin (deltaLon / 2) * sin (deltaLon / 2) in
  let c := 2 * atan2 (PrimFloat.sqrt a) (PrimFloat.sqrt (1 - a)) in
  R * c.

(** The loop of [distanceToRouteSegment] from segment [i] on:
    [routeCoordinates] is what is left of the array at index [i]. *)
Fixpoint segmentLoop (point : Coord) (routeCoordinates : list Coord)
    (minDistance : float) : float :=
  match routeCoordinates with
  | segmentStart :: (segmentEnd :: _) as rest =>
      let distToStart := calculateDistanceBetweenPoints point segmentStart in
      let distToEnd := calculateDistanceBetweenPoints point segmentEnd in
      segmentLoop point rest (JS.Math_min [minDistance; distToStart; distToEnd])
  | _ => minDistance
  end.

Definition distanceToRouteSegment (point : Coord) (routeCoordinates : list Coord)
    : float :=
  if (List.length routeCoordinates <? 2)%nat then infinity
  else segmentLoop point routeCoordinates infinity.

Definition STEP_ADVANCE_THRESHOLD : float := 30.
Definition ARRIVAL_THRESHOLD : float := 30.
Definition OFF_ROUTE_THRESHOLD : float := 50.

(** [route.steps.length - 1], as the integer it is in the source. *)
Definition lastIndex (r : NavigationRoute.t) : Z :=
  Z.of_nat (List.length (NavigationRoute.steps r)) - 1.

(** [processLocationUpdate], reading [route], [currentStepIndex],
    [destination] and [isOffRoute] from the navigation state it was
    rendered with; [now] is the clock read by [calculateETA]. The calls to
    the render sink ([map.easeTo]) are left out. *)
Definition processLocationUpdate (now : float) (loc : LocationPoint)
    (p : Provider) : Provider :=
  let s := navigationState p in
  let idx := currentStepIndex s in
  match route s with
  | None => p
  | Some r =>
      match NavigationRoute.steps r with
      | [] => p
      | _ :: _ =>
          let currentPoint : Coord := (longitude loc, latitude loc) in
          match nth_error (NavigationRoute.steps r) idx with
          | None => p
          | Some currentStep =>
              let distanceToManeuver :=
                calculateDistanceBetweenPoints currentPoint
                  (location (NavigationStep.maneuver currentStep)) in
              let newStepIndex :=
                if (distanceToManeuver <? STEP_ADVANCE_THRESHOLD)
                   && (Z.of_nat idx <? lastIndex r)%Z
                then S idx else idx in
              let arrived :=
                match destination s with
                | Some d =>
                    (Z.of_nat idx >=? lastIndex r)%Z
                    && (calculateDistanceBetweenPoints currentPoint
                          (SelectedLocation.coordinates d) <? ARRIVAL_THRESHOLD)
                | None => false
                end in
              if arrived then endNavigation p
              else
                let distanceToRoute :=
                  distanceToRouteSegment currentPoint
                    (coordinates (NavigationRoute.geometry r)) in
                let isCurrentlyOffRoute := OFF_ROUTE_THRESHOLD <? distanceToRoute in
                let p1 :=
                  if Bool.eqb isCurrentlyOffRoute (isOffRoute s) then p
                  else setOffRoute isCurrentlyOffRoute p in
                let newDistanceToManeuver :=
                  if Nat.eqb newStepIndex idx then distanceToManeuver
                  else JS.opt_or (stepDistanceAt r newStepIndex) 0 in
                updateNavigationProgress now currentPoint newDistanceToManeuver
                  newStepIndex p1
          end
      end
  end.

(** [processLocationUpdate] with the two states it touches kept apart:
    [s] is the navigation state of the render the callback was created in,
    from which it reads [route], [currentStepIndex], [destination] and
    [isOffRoute]; [p] is the provider state at the time the effect runs,
    to which [setOffRoute] and [updateNavigationProgress] apply their
    functional updates. [processLocationUpdate now loc p] is the case in
    which nothing was handled between the render and its effect. *)
Definition processLocationUpdateIn (now : float) (loc : LocationPoint)
    (s : ActiveNavigationState) (p : Provider) : Provider :=
  let idx := currentStepIndex s in
  match route s with
  | None => p
  | Some r =>
      match NavigationRoute.steps r with
      | [] => p
      | _ :: _ =>
          let currentPoint : Coord := (longitude loc, latitude loc) in
          match nth_error (NavigationRoute.steps r) idx with
          | None => p
          | Some currentStep =>
              let distanceToManeuver :=
                calculateDistanceBetweenPoints currentPoint
                  (location (NavigationStep.maneuver currentStep)) in
              let newStepIndex :=
                if (distanceToManeuver <? STEP_ADVANCE_THRESHOLD)
                   && (Z.of_nat idx <? lastIndex r)%Z
                then S idx else idx in
              let arrived :=
                match destination s with
                | Some d =>
                    (Z.of_nat idx >=? lastIndex r)%Z
                    && (calculateDistanceBetweenPoints currentPoint
                          (SelectedLocation.coordinates d) <? ARRIVAL_THRESHOLD)
                | None => false
                end in
              if arrived then endNavigation p
              else
                let distanceToRoute :=
                  distanceToRouteSegment currentPoint
                    (coordinates (NavigationRoute.geometry r)) in
                let isCurrentlyOffRoute := OFF_ROUTE_THRESHOLD <? distanceToRoute in
                let p1 :=
                  if Bool.eqb isCurrentlyOffRoute (isOffRoute s) then p
                  else setOffRoute isCurrentlyOffRoute p in
                let newDistanceToManeuver :=
                  if Nat.eqb newStepIndex idx then distanceToManeuver
                  else JS.opt_or (stepDistanceAt r newStepIndex) 0 in
                updateNavigationProgress now currentPoint newDistanceToManeuver
                  newStepIndex p1
          end
      end
  end.

(** The guard of the effect that watches [currentLocation]: the last
    processed sample has the same timestamp, latitude and longitude
    under [===]. *)
Definition sameLocation (last : option LocationPoint) (currentLocation : LocationPoint)
    : bool :=
  match last with
  | None => false
  | Some l =>
      (timestamp l =? timestamp currentLocation)
      && (latitude l =? latitude currentLocation)
      && (longitude l =? longitude currentLocation)
  end.

(** The body of that effect, on the provider and on
    [lastProcessedLocationRef]. *)
Definition watchLocation (now : float) (currentLocation : option LocationPoint)
    (st : Provider * option LocationPoint) : Provider * option LocationPoint :=
  match currentLocation with
  | None => st
  | Some loc =>
      if sameLocation (snd st) loc then st
      else (processLocationUpdate now loc (fst st), Some loc)
  end.

End Geometry.

(** ** The page, the mounted view and its effects

    The map page ([src/unnamed/part_003]) mounts [ActiveNavigationView]
    while the mode is [active] and hands it the latest position as
    [currentLocation]; the provider lives in the layout and outlives the view. The view
    holds three refs and two effects that matter here: the effect that arms
    the 3 second reroute timer and the effect that feeds a new position to
    [processLocationUpdate]. React runs an effect again after a render in
    which one of its dependencies is a different value or object. *)

(** The timeout armed by the reroute effect: when it may fire, and what its
    callback closes over ([currentLocation], and [destination] through
    [handleReroute]). *)
Record Timer : Type := {
  deadline : Z;
  timerLocation : LocationPoint;
  timerDestination : option SelectedLocation.t
}.

(** [RouteRequest] of [src/lib/navigation.ts]; reroutes pass no waypoints. *)
Module RouteRequest.
Record t : Type := {
  origin : Coord;
  destination : Coord
}.
End RouteRequest.

(** A call of [calculateRoute] that has not settled yet, with the view
    instance whose [handleReroute] awaits it. *)
Record PendingReroute : Type := {
  request : RouteRequest.t;
  caller : nat
}.

(** Dependencies of the reroute effect:
    [[isOffRoute, isRerouting, currentLocation, handleReroute]]. Objects are
    compared by identity, for which a generation number stands;
    [handleReroute] changes with [destination]. *)
Record RerouteDeps : Type := {
  dep_isOffRoute : bool;
  dep_isRerouting : bool;
  dep_currentLocation : nat;
  dep_handleReroute : nat
}.

(** Dependencies of the location effect: [currentLocation] and
    [processLocationUpdate], which changes with [route], [currentStepIndex],
    [destination] and [isOffRoute]. *)
Record LocationDeps : Type := {
  ldep_currentLocation : nat;
  ldep_route : nat;
  ldep_currentStepIndex : nat;
  ldep_destination : nat;
  ldep_isOffRoute : bool
}.

(** A mounted [ActiveNavigationView]. [rerouteTimeout] is the timeout that
    [rerouteTimeoutRef] names while it is pending; the dependency fields
    remember what each effect last ran with ([None] before the first run). *)
Record View : Type := {
  viewId : nat;
  lastProcessedLocationRef : option LocationPoint;
  rerouteTimeout : option Timer;
  isReroutingRef : bool;
  rerouteDeps : option RerouteDeps;
  locationDeps : option LocationDeps
}.

(** The page with its provider. [positionGen], [routeGen] and
    [destinationGen] stand for the identity of the objects held in
    [position], [route] and [destination]: a handler that stores a new object
    advances the number. The arrival branch of [processLocationUpdate] stores
    [null] from inside an effect and leaves the numbers alone; the view is
    unmounted by the next render, and a view mounted later runs every effect,
    so no comparison reads them in between. [pending] lists the calls of
    [calculateRoute] in flight, oldest first; [routingCalls] counts the calls
    made so far; [clock] is in milliseconds. *)
Record World : Type := {
  provider : Provider;
  position : option LocationPoint;
  positionGen : nat;
  routeGen : nat;
  destinationGen : nat;
  view : option View;
  nextViewId : nat;
  pending : list PendingReroute;
  clock : Z;
  routingCalls : nat;
  NEXT_PUBLIC_MAPBOX_TOKEN : option string
}.

Inductive Event : Type :=
| SetPosition (loc : LocationPoint)
| Tick (ms : N)
| TimerFire
| Resolve (k : nat) (newRoute : option NavigationRoute.t)
| EndNavigation
| SetPreviewRoute (r : NavigationRoute.t) (dest : SelectedLocation.t) (orig : Coord)
| StartActive
| Render.

(** [getMapboxToken] of [src/lib/mapbox.ts]. *)
Definition getMapboxToken (env : option string) : string :=
  match env with
  | Some token =>
      if String.eqb token "" || String.eqb token "your_mapbox_token_here"
      then ""%string else token
  | None => ""%string
  end.

(** The time value of [new Date()] at clock [t], in milliseconds. *)
Definition Date_now (t : Z) : float := PrimFloat.of_uint63 (Uint63.of_Z t).

Definition nav (w : World) : ActiveNavigationState := navigationState (provider w).

Definition is_active (w : World) : bool :=
  match mode (nav w) with active => true | _ => false end.

Definition rerouteDepsOf (w : World) : RerouteDeps := {|
  dep_isOffRoute := isOffRoute (nav w);
  dep_isRerouting := isRerouting (nav w);
  dep_currentLocation := positionGen w;
  dep_handleReroute := destinationGen w
|}.

Definition locationDepsOf (w : World) : LocationDeps := {|
  ldep_currentLocation := positionGen w;
  ldep_route := routeGen w;
  ldep_currentStepIndex := currentStepIndex (nav w);
  ldep_destination := destinationGen w;
  ldep_isOffRoute := isOffRoute (nav w)
|}.

Definition RerouteDeps_eqb (a b : RerouteDeps) : bool :=
  Bool.eqb (dep_isOffRoute a) (dep_isOffRoute b)
  && Bool.eqb (dep_isRerouting a) (dep_isRerouting b)
  && Nat.eqb (dep_currentLocation a) (dep_currentLocation b)
  && Nat.eqb (dep_handleReroute a) (dep_handleReroute b).

Definition LocationDeps_eqb (a b : LocationDeps) : bool :=
  Nat.eqb (ldep_currentLocation a) (ldep_currentLocation b)
  && Nat.eqb (ldep_route a) (ldep_route b)
  && Nat.eqb (ldep_currentStepIndex a) (ldep_currentStepIndex b)
  && Nat.eqb (ldep_destination a) (ldep_destination b)
  && Bool.eqb (ldep_isOffRoute a) (ldep_isOffRoute b).

(** Whether an effect last ran with these dependencies. *)
Definition ranWith {D : Type} (eqb : D -> D -> bool) (last : option D) (now : D) : bool :=
  match last with
  | Some d => eqb d now
  | None => false
  end.

Definition set_provider (p : Provider) (w : World) : World :=
  {| provider := p; position := position w; positionGen := positionGen w;
     routeGen := routeGen w; destinationGen := destinationGen w; view := view w;
     nextViewId := nextViewId w; pending := pending w; clock := clock w;
     routingCalls := routingCalls w;
     NEXT_PUBLIC_MAPBOX_TOKEN := NEXT_PUBLIC_MAPBOX_TOKEN w |}.

Definition set_view (v : option View) (w : World) : World :=
  {| provider := provider w; position := position w; positionGen := positionGen w;
     routeGen := routeGen w; destinationGen := destinationGen w; view := v;
     nextViewId := nextViewId w; pending := pending w; clock := clock w;
     routingCalls := routingCalls w;
     NEXT_PUBLIC_MAPBOX_TOKEN := NEXT_PUBLIC_MAPBOX_TOKEN w |}.

(** A handler stored a new route object, a new destination object, or both. *)
Definition new_objects (newRoute newDestination : bool) (w : World) : World :=
  {| provider := provider w; position := position w; positionGen := positionGen w;
     routeGen := if newRoute then S (routeGen w) else routeGen w;
     destinationGen := if newDestination then S (destinationGen w) else destinationGen w;
     view := view w;
     nextViewId := nextViewId w; pending := pending w; clock := clock w;
     routingCalls := routingCalls w;
     NEXT_PUBLIC_MAPBOX_TOKEN := NEXT_PUBLIC_MAPBOX_TOKEN w |}.

Definition set_isReroutingRef (b : bool) (v : View) : View :=
  {| viewId := viewId v;
     lastProcessedLocationRef := lastProcessedLocationRef v;
     rerouteTimeout := rerouteTimeout v;
     isReroutingRef := b;
     rerouteDeps := rerouteDeps v;
     locationDeps := locationDeps v |}.

Definition set_rerouteTimeout (t : option Timer) (v : View) : View :=
  {| viewId := viewId v;
     lastProcessedLocationRef := lastProcessedLocationRef v;
     rerouteTimeout := t;
     isReroutingRef := isReroutingRef v;
     rerouteDeps := rerouteDeps v;
     locationDeps := locationDeps v |}.

(** A view as React creates it: [useRef(null)], [useRef(null)],
    [useRef(false)], no effect run yet. *)
Definition freshView (id : nat) : View := {|
  viewId := id;
  lastProcessedLocationRef := None;
  rerouteTimeout := None;
  isReroutingRef := false;
  rerouteDeps := None;
  locationDeps := None
|}.

(** The reroute effect (cleanup of the previous run, then the body): the
    pending timeout is cleared, and a new one of 3000 ms is armed when
    [isOffRoute && !isRerouting && currentLocation]. *)
Definition rerouteEffect (w : World) (v : View) : View :=
  let deps := rerouteDepsOf w in
  if ranWith RerouteDeps_eqb (rerouteDeps v) deps then v
  else
    {| viewId := viewId v;
       lastProcessedLocationRef := lastProcessedLocationRef v;
       rerouteTimeout :=
         if isOffRoute (nav w) && negb (isRerouting (nav w)) then
           match position w with
           | Some currentLocation =>
               Some {| deadline := clock w + 3000;
                       timerLocation := currentLocation;
                       timerDestination := destination (nav w) |}
           | None => None
           end
         else None;
       isReroutingRef := isReroutingRef v;
       rerouteDeps := Some deps;
       locationDeps := locationDeps v |}.

Section Effects.

Context (M : JS.MathLib).

(** The location effect, on the provider and the view. *)
Definition locationEffect (w : World) (v : View) : Provider * View :=
  let deps := locationDepsOf w in
  if ranWith LocationDeps_eqb (locationDeps v) deps then (provider w, v)
  else
    let r :=
      watchLocation M (Date_now (clock w)) (position w)
        (provider w, lastProcessedLocationRef v) in
    (fst r,
     {| viewId := viewId v;
        lastProcessedLocationRef := snd r;
        rerouteTimeout := rerouteTimeout v;
        isReroutingRef := isReroutingRef v;
        rerouteDeps := rerouteDeps v;
        locationDeps := Some deps |}).

(** The effects of one render of the mounted view, in source order. Both
    close over the state the view was rendered with. *)
Definition runEffects (w : World) (v : View) : World :=
  let v1 := rerouteEffect w v in
  let r := locationEffect w v1 in
  set_view (Some (snd r)) (set_provider (fst r) w).

(** One React commit: the page mounts the view when the mode is [active]
    and unmounts it otherwise (the cleanup clears the timeout); a mounted
    view runs the effects whose dependencies changed. *)
Definition render (w : World) : World :=
  match view w with
  | None =>
      if is_active w then
        runEffects
          {| provider := provider w; position := position w;
             positionGen := positionGen w; routeGen := routeGen w;
             destinationGen := destinationGen w; view := None;
             nextViewId := S (nextViewId w); pending := pending w;
             clock := clock w; routingCalls := routingCalls w;
             NEXT_PUBLIC_MAPBOX_TOKEN := NEXT_PUBLIC_MAPBOX_TOKEN w |}
          (freshView (nextViewId w))
      else w
  | Some v =>
      if is_active w then runEffects w v else set_view None w
  end.

(** Nothing is left for React to do: the view is mounted exactly in
    active mode and every effect has run with the current dependencies. *)
Definition stableb (w : World) : bool :=
  match view w with
  | None => negb (is_active w)
  | Some v =>
      is_active w
      && ranWith RerouteDeps_eqb (rerouteDeps v) (rerouteDepsOf w)
      && ranWith LocationDeps_eqb (locationDeps v) (locationDepsOf w)
  end.

(** [handleReroute(currentPoint)] up to its [await], called by the
    timeout [tm] of view [v]. *)
Definition handleReroute (tm : Timer) (v : View) (w : World) : World :=
  match timerDestination tm with
  | None => w
  | Some dest =>
      if isReroutingRef v then w
      else
        let p1 := setRerouting true (provider w) in
        let token := getMapboxToken (NEXT_PUBLIC_MAPBOX_TOKEN w) in
        if String.eqb token "" then
          set_provider (setRerouting false p1) w
        else
          let currentPoint : Coord :=
            (longitude (timerLocation tm), latitude (timerLocation tm)) in
          {| provider := p1; position := position w;
             positionGen := positionGen w; routeGen := routeGen w;
             destinationGen := destinationGen w;
             view := Some (set_isReroutingRef true v);
             nextViewId := nextViewId w;
             pending :=
               pending w ++
               [{| request :=
                     {| RouteRequest.origin := currentPoint;
                        RouteRequest.destination := SelectedLocation.coordinates dest |};
                   caller := viewId v |}];
             clock := clock w;
             routingCalls := S (routingCalls w);
             NEXT_PUBLIC_MAPBOX_TOKEN := NEXT_PUBLIC_MAPBOX_TOKEN w |}
  end.

(** The timeout fires, no earlier than its deadline. *)
Definition timerFire (w : World) : World :=
  match view w with
  | Some v =>
      match rerouteTimeout v with
      | Some tm =>
          if (deadline tm <=? clock w)%Z then
            handleReroute tm (set_rerouteTimeout None v)
              (set_view (Some (set_rerouteTimeout None v)) w)
          else w
      | None => w
      end
  | None => w
  end.

Fixpoint remove_nth {A : Type} (k : nat) (l : list A) : list A :=
  match k, l with
  | _, [] => []
  | O, _ :: tl => tl
  | S k', x :: tl => x :: remove_nth k' tl
  end.

(** The [k]-th pending [calculateRoute] settles with [newRoute] ([null]
    on any failure) and [handleReroute] resumes after its [await]:
    [updateRoute(newRoute)] when there is a route, then the [finally]
    block. The ref it resets belongs to the view that made the call. *)
Definition resolve (k : nat) (newRoute : option NavigationRoute.t) (w : World) : World :=
  match nth_error (pending w) k with
  | None => w
  | Some rq =>
      let p1 :=
        match newRoute with
        | Some r => updateRoute (Date_now (clock w)) r (provider w)
        | None => provider w
        end in
      {| provider := setRerouting false p1; position := position w;
         positionGen := positionGen w;
         routeGen := match newRoute with Some _ => S (routeGen w) | None => routeGen w end;
         destinationGen := destinationGen w;
         view :=
           match view w with
           | Some v =>
               if Nat.eqb (viewId v) (caller rq)
               then Some (set_isReroutingRef false v) else Some v
           | None => None
           end;
         nextViewId := nextViewId w;
         pending := remove_nth k (pending w);
         clock := clock w;
         routingCalls := routingCalls w;
         NEXT_PUBLIC_MAPBOX_TOKEN := NEXT_PUBLIC_MAPBOX_TOKEN w |}
  end.

(** What an event does to a world that React has finished rendering. *)
Definition handle (w : World) (e : Event) : World :=
  match e with
  | SetPosition loc =>
      {| provider := provider w; position := Some loc;
         positionGen := S (positionGen w); routeGen := routeGen w;
         destinationGen := destinationGen w; view := view w;
         nextViewId := nextViewId w; pending := pending w; clock := clock w;
         routingCalls := routingCalls w;
         NEXT_PUBLIC_MAPBOX_TOKEN := NEXT_PUBLIC_MAPBOX_TOKEN w |}
  | Tick ms =>
      {| provider := provider w; position := position w;
         positionGen := positionGen w; routeGen := routeGen w;
         destinationGen := destinationGen w; view := view w;
         nextViewId := nextViewId w; pending := pending w;
         clock := clock w + Z.of_N ms;
         routingCalls := routingCalls w;
         NEXT_PUBLIC_MAPBOX_TOKEN := NEXT_PUBLIC_MAPBOX_TOKEN w |}
  | TimerFire => timerFire w
  | Resolve k newRoute => resolve k newRoute w
  | EndNavigation =>
      new_objects true true (set_provider (endNavigation (provider w)) w)
  | SetPreviewRoute r dest orig =>
      new_objects true true
        (set_provider (setPreviewRoute (Date_now (clock w)) r dest orig (provider w)) w)
  | StartActive =>
      set_provider (completed (provider w) (startActiveNavigation (provider w))) w
  | Render => w
  end.

(** The step function. React commits an update, effects included, before
    the next event is handled: an event other than [Render] is taken
    only by a stable world, and its handler belongs to a render that has
    seen the state the previous event left. A response or a user action
    handled between a commit and its effects is not among these runs;
    neither is [StartActive] in the handler that has just set the first
    route, for which see [handleStart]. *)
Definition step (w : World) (e : Event) : World :=
  match e with
  | Render => render w
  | _ => if stableb w then handle w e else w
  end.

Definition run (w : World) (evs : list Event) : World := fold_left step evs w.

End Effects.

(** The world when the page loads. *)
Definition initialWorld (t0 : Z) (env : option string) : World := {|
  provider := initialProvider;
  position := None;
  positionGen := 0;
  routeGen := 0;
  destinationGen := 0;
  view := None;
  nextViewId := 0;
  pending := [];
  clock := t0;
  routingCalls := 0;
  NEXT_PUBLIC_MAPBOX_TOKEN := env
|}.

(** ** A sample [Math]

    Truncated Maclaurin series, close to the exact functions on the small
    angles that arise between points a few kilometres apart. It serves to
    evaluate the embedding on concrete routes; the general theorems hold for
    every [JS.MathLib]. *)
Module SeriesMath.

Definition sin (x : float) : float :=
  let x2 := x * x in
  x * (1 - x2 / 6 * (1 - x2 / 20 * (1 - x2 / 42 * (1 - x2 / 72)))).

Definition cos (x : float) : float :=
  let x2 := x * x in
  1 - x2 / 2 * (1 - x2 / 12 * (1 - x2 / 30 * (1 - x2 / 56))).

Definition atan (t : float) : float :=
  let t2 := t * t in
  t * (1 - t2 * (1 / 3 - t2 * (1 / 5 - t2 * (1 / 7 - t2 / 9)))).

Definition atan2 (y x : float) : float :=
  if 0 <? x then atan (y / x)
  else if x <? 0 then
    if y <? 0 then atan (y / x) - JS.Math_PI else atan (y / x) + JS.Math_PI
  else if 0 <? y then JS.Math_PI / 2
  else if y <? 0 then - (JS.Math_PI / 2)
  else y.

Definition lib : JS.MathLib := {|
  JS.Math_sin := sin;
  JS.Math_cos := cos;
  JS.Math_atan2 := atan2
|}.

End SeriesMath.

(** ** The properties' vocabulary *)

(** The minimum over all polyline vertices of the distance from the point
    to the vertex, as the specification words [distanceToPolyline]. *)
Definition minVertexDistance (M : JS.MathLib) (point : Coord) (polyline : list Coord)
    : float :=
  JS.Math_min (map (calculateDistanceBetweenPoints M point) polyline).

(** The step-advancement rule of the specification: the sample is within
    30 m of the current step's maneuver and the current step is not the
    last one. *)
Definition advanceRule (M : JS.MathLib) (loc : LocationPoint)
    (s : ActiveNavigationState) : Prop :=
  exists r currentStep,
    route s = Some r /\
    nth_error (NavigationRoute.steps r) (currentStepIndex s) = Some currentStep /\
    (calculateDistanceBetweenPoints M (longitude loc, latitude loc)
       (location (NavigationStep.maneuver currentStep)) <? 30) = true /\
    (S (currentStepIndex s) < List.length (NavigationRoute.steps r))%nat.


(** A reroute request made by the mounted view has not settled yet. *)
Definition ownRequestPending (w : World) : Prop :=
  exists v rq, view w = Some v /\ In rq (pending w) /\ caller rq = viewId v.

(** The off-route flag has been true in every world since some point of
    the run at which the clock read at most [t]. *)
Definition offRouteSince (M : JS.MathLib) (w0 : World) (evs : list Event) (t : Z) : Prop :=
  exists evs1 evs2,
    evs = evs1 ++ evs2 /\
    (clock (run M w0 evs1) <= t)%Z /\
    forall pre post, evs2 = pre ++ post ->
      isOffRoute (nav (run M w0 (evs1 ++ pre))) = true.

(** ** Concrete routes and samples *)

Module Scenario.

Definition M : JS.MathLib := SeriesMath.lib.

Definition mkStep (d t : float) (c : Coord) : NavigationStep.t := {|
  NavigationStep.distance := d;
  NavigationStep.duration := t;
  NavigationStep.instruction := "";
  NavigationStep.maneuver := {| type := "turn"; modifier := None; location := c |}
|}.

Definition sample (lon lat t : float) : LocationPoint := {|
  latitude := lat;
  longitude := lon;
  accuracy := None;
  altitude := None;
  altitudeAccuracy := None;
  heading := None;
  speed := None;
  timestamp := t
|}.

Definition lineString (cs : list Coord) : Geometry :=
  {| coordinates := cs; geometry_type := "LineString" |}.

(** The two-step route of the specification's scenario, over a geometry. *)
Definition R (g : Geometry) : NavigationRoute.t := {|
  NavigationRoute.distance := 1000;
  NavigationRoute.duration := 120;
  NavigationRoute.geometry := g;
  NavigationRoute.steps := [mkStep 400 40 (0, 0.004); mkStep 600 80 (0, 0.01)]
|}.

Definition dest : SelectedLocation.t :=
  {| SelectedLocation.coordinates := (0, 0.01); SelectedLocation.name := "Destination" |}.

(** The state after [setPreviewRoute(R, dest, origin)], a render, and
    [startActiveNavigation()] called by that render. *)
Definition started (now : float) (g : Geometry) : Provider :=
  let p := setPreviewRoute now (R g) dest (0, 0) initialProvider in
  completed p (startActiveNavigation p).

Definition straight : Geometry := lineString [(0, 0); (0, 0.004); (0, 0.01)].

(** A route whose first maneuver lies 11 m before the destination. *)
Definition shortRoute : NavigationRoute.t := {|
  NavigationRoute.distance := 100;
  NavigationRoute.duration := 30;
  NavigationRoute.geometry := lineString [(0, 0); (0, 0.0009); (0, 0.001)];
  NavigationRoute.steps := [mkStep 90 25 (0, 0.0009); mkStep 10 5 (0, 0.001)]
|}.

Definition shortDest : SelectedLocation.t :=
  {| SelectedLocation.coordinates := (0, 0.001); SelectedLocation.name := "Destination" |}.

(** The same for the short route. *)
Definition shortStarted : Provider :=
  let p := setPreviewRoute 0 shortRoute shortDest (0, 0) initialProvider in
  completed p (startActiveNavigation p).

(** A navigation state that is off route. *)
Definition offRouteState : Provider := setOffRoute true (started 0 straight).

(** A reroute result. *)
Definition R' : NavigationRoute.t := {|
  NavigationRoute.distance := 700;
  NavigationRoute.duration := 90;
  NavigationRoute.geometry := lineString [(0.001, 0.003); (0, 0.01)];
  NavigationRoute.steps := [mkStep 700 90 (0, 0.01)]
|}.

Definition w0 : World := initialWorld 0 (Some "pk.token"%string).

(** Start a session on [R straight] with the traveler at [(0, 0)]. *)
Definition startSession : list Event :=
  [SetPosition (sample 0 0 1); SetPreviewRoute (R straight) dest (0, 0); Render;
   StartActive; Render; Render].

(** The traveler strays 111 m east of the route and no further position
    arrives for 3 seconds. *)
Definition beforeFire : list Event :=
  startSession ++ [SetPosition (sample 0.001 0.003 2); Render; Render; Tick 3000].

(** The timeout fires: a reroute is requested. *)
Definition rerouteTrace : list Event := beforeFire ++ [TimerFire; Render].

(** The user ends the session while the request is in flight; the
    response arrives afterwards. *)
Definition lateResponseTrace : list Event :=
  rerouteTrace ++ [EndNavigation; Render; Resolve 0 (Some R')].

(** The user ends the session while the request is in flight and starts
    another one, which strays in turn. *)
Definition secondSessionTrace : list Event :=
  rerouteTrace ++ [EndNavigation; Render]
  ++ [SetPreviewRoute (R straight) dest (0, 0); Render; StartActive; Render; Render]
  ++ [SetPosition (sample 0.001 0.0031 3); Render; Render; Tick 3000].

End Scenario.

(** The pending requests made by view [id]. *)
Definition ownPending (id : nat) (l : list PendingReroute) : list PendingReroute :=
  filter (fun rq => Nat.eqb (caller rq) id) l.

(** [isReroutingRef] tells whether the mounted view has a request in
    flight, and view identifiers are fresh. *)
Definition refInv (w : World) : Prop :=
  (forall rq, In rq (pending w) -> (caller rq < nextViewId w)%nat) /\
  (forall v, view w = Some v ->
     (viewId v < nextViewId w)%nat /\
     List.length (ownPending (viewId v) (pending w))
     = if isReroutingRef v then 1%nat else 0%nat).

(** A pending timeout whose effect is up to date was armed at a point
    since which the off-route flag has been true. *)
Definition timerInv (M : JS.MathLib) (w0 : World) (evs : list Event) : Prop :=
  forall v tm,
    view (run M w0 evs) = Some v ->
    rerouteTimeout v = Some tm ->
    rerouteDeps v = Some (rerouteDepsOf (run M w0 evs)) ->
    offRouteSince M w0 evs (deadline tm - 3000).
(** ** Location helpers ([src/lib/location.ts]) *)

Section LocationLib.

Context (M : JS.MathLib).

(** Haversine distance in metres between two location points. *)
Definition calculateDistance (point1 point2 : LocationPoint) : float :=
  let R := 6371000 in
  let lat1 := (latitude point1 * JS.Math_PI) / 180 in
  let lat2 := (latitude point2 * JS.Math_PI) / 180 in
  let deltaLat := ((latitude point2 - latitude point1) * JS.Math_PI) / 180 in
  let deltaLon := ((longitude point2 - longitude point1) * JS.Math_PI) / 180 in
  let a :=
    JS.Math_sin M (deltaLat / 2) * JS.Math_sin M (deltaLat / 2) +
    JS.Math_cos M lat1 * JS.Math_cos M lat2 *
    JS.Math_sin M (deltaLon / 2) * JS.Math_sin M (deltaLon / 2) in
  let c := 2 * JS.Math_atan2 M (PrimFloat.sqrt a) (PrimFloat.sqrt (1 - a)) in
  R * c.

(** The loop of [calculateTotalDistance] from index [i] on: [previous] is
    [locations[i - 1]] and [rest] is the array from index [i]. *)
Fixpoint totalDistanceLoop (previous : LocationPoint) (rest : list LocationPoint)
    (totalDistance : float) : float :=
  match rest with
  | [] => totalDistance
  | current :: rest' =>
      totalDistanceLoop current rest'
        (totalDistance + calculateDistance previous current)
  end.

Definition calculateTotalDistance (locations : list LocationPoint) : float :=
  if (List.length locations <? 2)%nat then 0
  else
    match locations with
    | first :: rest => totalDistanceLoop first rest 0
    | [] => 0
    end.

(** [hasMoved(point1, point2, threshold)]; the source's default threshold
    is 10. *)
Definition hasMoved (point1 : option LocationPoint) (point2 : LocationPoint)
    (threshold : float) : bool :=
  match point1 with
  | None => true
  | Some p1 => threshold <? calculateDistance p1 point2
  end.

End LocationLib.

(** Average speed in km/h from metres and seconds. *)
Definition calculateAverageSpeed (distance duration : float) : float :=
  if duration =? 0 then 0
  else
    let speedMs := distance / duration in
    (speedMs * 3600) / 1000.

(** ** Route helpers ([src/lib/navigation.ts]) *)

Module RemainingRouteInfo.
Record t : Type := {
  distance : float;
  duration : float
}.
End RemainingRouteInfo.

(** [getCurrentInstruction], for an integer step index. Inside the bounds
    the indexed step exists. *)
Definition getCurrentInstruction (route : option NavigationRoute.t)
    (currentStepIndex : Z) : string :=
  match route with
  | None => ""%string
  | Some r =>
      if (currentStepIndex <? 0)%Z
         || (currentStepIndex >=? Z.of_nat (List.length (NavigationRoute.steps r)))%Z
      then ""%string
      else
        match nth_error (NavigationRoute.steps r) (Z.to_nat currentStepIndex) with
        | Some st => NavigationStep.instruction st
        | None => ""%string
        end
  end.

(** [getRemainingRouteInfo], for an integer step index. *)
Definition getRemainingRouteInfo (route : option NavigationRoute.t)
    (currentStepIndex : Z) : RemainingRouteInfo.t :=
  match route with
  | None => {| RemainingRouteInfo.distance := 0; RemainingRouteInfo.duration := 0 |}
  | Some r =>
      if (currentStepIndex <? 0)%Z
      then {| RemainingRouteInfo.distance := 0; RemainingRouteInfo.duration := 0 |}
      else
        let sums := remainingFrom (NavigationRoute.steps r) (Z.to_nat currentStepIndex) in
        {| RemainingRouteInfo.distance := fst sums;
           RemainingRouteInfo.duration := snd sums |}
  end.

(** ** The navigation hook ([src/hooks/useNavigation.ts]) *)

Module NavigationState.
Record t : Type := {
  isActive : bool;
  route : option NavigationRoute.t;
  currentStepIndex : Z;
  origin : option Coord;
  destination : option Coord;
  waypoints : list Coord
}.
End NavigationState.

Module UseNavigation.

(** The three pieces of state of [useNavigation]. *)
Record t : Type := {
  state : NavigationState.t;
  isCalculating : bool;
  error : option string
}.

Definition initial : t := {|
  state := {|
    NavigationState.isActive := false;
    NavigationState.route := None;
    NavigationState.currentStepIndex := 0;
    NavigationState.origin := None;
    NavigationState.destination := None;
    NavigationState.waypoints := []
  |};
  isCalculating := false;
  error := None
|}.

Definition setState (f : NavigationState.t -> NavigationState.t) (h : t) : t :=
  {| state := f (state h); isCalculating := isCalculating h; error := error h |}.

(** [calculateRouteToDestination] once it has settled; [response] is what
    [calculateRoute] resolved to, and [env] the configured token. *)
Definition calculateRouteToDestination (env : option string)
    (origin destination : Coord) (waypoints : list Coord)
    (response : option NavigationRoute.t) (h : t) : t :=
  if String.eqb (getMapboxToken env) "" then
    {| state := state h; isCalculating := false;
       error := Some "Mapbox token not configured"%string |}
  else
    match response with
    | Some route =>
        {| state :=
             {| NavigationState.isActive := NavigationState.isActive (state h);
                NavigationState.route := Some route;
                NavigationState.currentStepIndex := 0;
                NavigationState.origin := Some origin;
                NavigationState.destination := Some destination;
                NavigationState.waypoints := waypoints |};
           isCalculating := false;
           error := None |}
    | None =>
        {| state := state h; isCalculating := false;
           error := Some "Could not calculate route"%string |}
    end.

Definition with_isActive (b : bool) (s : NavigationState.t) : NavigationState.t :=
  {| NavigationState.isActive := b;
     NavigationState.route := NavigationState.route s;
     NavigationState.currentStepIndex := NavigationState.currentStepIndex s;
     NavigationState.origin := NavigationState.origin s;
     NavigationState.destination := NavigationState.destination s;
     NavigationState.waypoints := NavigationState.waypoints s |}.

Definition with_currentStepIndex (i : Z) (s : NavigationState.t) : NavigationState.t :=
  {| NavigationState.isActive := NavigationState.isActive s;
     NavigationState.route := NavigationState.route s;
     NavigationState.currentStepIndex := i;
     NavigationState.origin := NavigationState.origin s;
     NavigationState.destination := NavigationState.destination s;
     NavigationState.waypoints := NavigationState.waypoints s |}.

Definition startNavigation (h : t) : t :=
  match NavigationState.route (state h) with
  | Some _ => setState (with_isActive true) h
  | None => h
  end.

Definition stopNavigation (h : t) : t :=
  setState (fun prev => with_currentStepIndex 0 (with_isActive false prev)) h.

Definition updateCurrentStep (stepIndex : Z) (h : t) : t :=
  match NavigationState.route (state h) with
  | Some r =>
      if (stepIndex >=? 0)%Z
         && (stepIndex <? Z.of_nat (List.length (NavigationRoute.steps r)))%Z
      then setState (with_currentStepIndex stepIndex) h
      else h
  | None => h
  end.

Definition nextStep (h : t) : t :=
  match NavigationState.route (state h) with
  | Some r =>
      let nextIndex := (NavigationState.currentStepIndex (state h) + 1)%Z in
      if (nextIndex <? Z.of_nat (List.length (NavigationRoute.steps r)))%Z
      then updateCurrentStep nextIndex h
      else stopNavigation h
  | None => h
  end.

Definition getCurrentInstructionText (h : t) : string :=
  getCurrentInstruction (NavigationState.route (state h))
    (NavigationState.currentStepIndex (state h)).

Definition getRemainingInfo (h : t) : RemainingRouteInfo.t :=
  getRemainingRouteInfo (NavigationState.route (state h))
    (NavigationState.currentStepIndex (state h)).

Definition clearRoute (h : t) : t :=
  {| state := state initial; isCalculating := isCalculating h; error := None |}.

(** A call of one of the hook's functions, made by a handler of the render
    that follows the previous call: [startNavigation], [updateCurrentStep]
    and [nextStep] test the [state] of the render they were created in,
    which is then the state they update. *)
Inductive Op : Type :=
| CalculateRouteToDestination (env : option string) (origin destination : Coord)
    (waypoints : list Coord) (response : option NavigationRoute.t)
| StartNavigation
| StopNavigation
| UpdateCurrentStep (stepIndex : Z)
| NextStep
| ClearRoute.

Definition apply (h : t) (op : Op) : t :=
  match op with
  | CalculateRouteToDestination env o d ws response =>
      calculateRouteToDestination env o d ws response h
  | StartNavigation => startNavigation h
  | StopNavigation => stopNavigation h
  | UpdateCurrentStep i => updateCurrentStep i h
  | NextStep => nextStep h
  | ClearRoute => clearRoute h
  end.

(** The hook after a sequence of calls with a render after each. Two calls
    made by one handler, which test the same render's state, are not among
    these. *)
Definition run (ops : list Op) : t := fold_left apply ops initial.

End UseNavigation.

(** ** The geolocation hook ([useGeolocation], in [src/hooks/useNavigation.ts]) *)

Module GeolocationCoordinates.
Record t : Type := {
  latitude : float;
  longitude : float;
  accuracy : float;
  altitude : option float;
  altitudeAccuracy : option float;
  heading : option float;
  speed : option float
}.
End GeolocationCoordinates.

Module GeolocationPosition.
Record t : Type := {
  coords : GeolocationCoordinates.t;
  timestamp : float
}.
End GeolocationPosition.

Module GeolocationPositionError.
Record t : Type := {
  code : Z;
  message : string
}.
End GeolocationPositionError.

Module GeolocationState.
Record t : Type := {
  position : option LocationPoint;
  error : option GeolocationPositionError.t;
  isTracking : bool;
  permissionGranted : option bool
}.
End GeolocationState.

Definition convertPositionToLocationPoint (position : GeolocationPosition.t)
    : LocationPoint :=
  let c := GeolocationPosition.coords position in
  {| latitude := GeolocationCoordinates.latitude c;
     longitude := GeolocationCoordinates.longitude c;
     accuracy := Some (GeolocationCoordinates.accuracy c);
     altitude := GeolocationCoordinates.altitude c;
     altitudeAccuracy := GeolocationCoordinates.altitudeAccuracy c;
     heading := GeolocationCoordinates.heading c;
     speed := GeolocationCoordinates.speed c;
     timestamp := GeolocationPosition.timestamp position |}.

Module UseGeolocation.

(** The state of the hook and [watchIdRef]. [intervalRef] is never
    assigned and stays [null]. *)
Record t : Type := {
  state : GeolocationState.t;
  watchIdRef : option nat
}.

Definition initial : t := {|
  state := {|
    GeolocationState.position := None;
    GeolocationState.error := None;
    GeolocationState.isTracking := false;
    GeolocationState.permissionGranted := None
  |};
  watchIdRef := None
|}.

Definition unsupportedError (msg : string) : GeolocationPositionError.t :=
  {| GeolocationPositionError.code := 0; GeolocationPositionError.message := msg |}.

(** How [checkPermission] went: no geolocation at all; the permission was
    queried; or there was nothing to query (or the query threw). *)
Inductive PermissionOutcome : Type :=
| Unsupported
| Queried (granted : bool)
| NotQueried.

Definition checkPermission (outcome : PermissionOutcome) (h : t) : t :=
  let s := state h in
  match outcome with
  | Unsupported =>
      {| state :=
           {| GeolocationState.position := GeolocationState.position s;
              GeolocationState.error :=
                Some (unsupportedError "Geolocation is not supported by this browser");
              GeolocationState.isTracking := GeolocationState.isTracking s;
              GeolocationState.permissionGranted := Some false |};
         watchIdRef := watchIdRef h |}
  | Queried granted =>
      {| state :=
           {| GeolocationState.position := GeolocationState.position s;
              GeolocationState.error := GeolocationState.error s;
              GeolocationState.isTracking := GeolocationState.isTracking s;
              GeolocationState.permissionGranted := Some granted |};
         watchIdRef := watchIdRef h |}
  | NotQueried => h
  end.

(** [startTracking]; [supported] tells whether [navigator.geolocation]
    exists and [watch] is the identifier [watchPosition] returned, or
    [None] when it threw. *)
Definition startTracking (supported : bool) (watch : option nat) (h : t) : t :=
  let s := state h in
  match watchIdRef h with
  | Some _ => h
  | None =>
      if negb supported then
        {| state :=
             {| GeolocationState.position := GeolocationState.position s;
                GeolocationState.error :=
                  Some (unsupportedError "Geolocation is not supported");
                GeolocationState.isTracking := GeolocationState.isTracking s;
                GeolocationState.permissionGranted := GeolocationState.permissionGranted s |};
           watchIdRef := None |}
      else
        match watch with
        | Some id =>
            {| state :=
                 {| GeolocationState.position := GeolocationState.position s;
                    GeolocationState.error := GeolocationState.error s;
                    GeolocationState.isTracking := true;
                    GeolocationState.permissionGranted :=
                      GeolocationState.permissionGranted s |};
               watchIdRef := Some id |}
        | None =>
            {| state :=
                 {| GeolocationState.position := GeolocationState.position s;
                    GeolocationState.error :=
                      Some (unsupportedError "Failed to start location tracking");
                    GeolocationState.isTracking := false;
                    GeolocationState.permissionGranted :=
                      GeolocationState.permissionGranted s |};
               watchIdRef := None |}
        end
  end.

Definition successCallback (position : GeolocationPosition.t) (h : t) : t :=
  let s := state h in
  {| state :=
       {| GeolocationState.position := Some (convertPositionToLocationPoint position);
          GeolocationState.error := None;
          GeolocationState.isTracking := GeolocationState.isTracking s;
          GeolocationState.permissionGranted := Some true |};
     watchIdRef := watchIdRef h |}.

Definition errorCallback (err : GeolocationPositionError.t) (h : t) : t :=
  let s := state h in
  if (GeolocationPositionError.code err =? 3)%Z then
    {| state :=
         {| GeolocationState.position := GeolocationState.position s;
            GeolocationState.error := Some err;
            GeolocationState.isTracking := GeolocationState.isTracking s;
            GeolocationState.permissionGranted := GeolocationState.permissionGranted s |};
       watchIdRef := watchIdRef h |}
  else
    {| state :=
         {| GeolocationState.position := GeolocationState.position s;
            GeolocationState.error := Some err;
            GeolocationState.isTracking := false;
            GeolocationState.permissionGranted :=
              if (GeolocationPositionError.code err =? 1)%Z then Some false
              else GeolocationState.permissionGranted s |};
       watchIdRef := None |}.

Definition stopTracking (h : t) : t :=
  let s := state h in
  {| state :=
       {| GeolocationState.position := GeolocationState.position s;
          GeolocationState.error := GeolocationState.error s;
          GeolocationState.isTracking := false;
          GeolocationState.permissionGranted := GeolocationState.permissionGranted s |};
     watchIdRef := None |}.

Inductive Op : Type :=
| CheckPermission (outcome : PermissionOutcome)
| StartTracking (supported : bool) (watch : option nat)
| Success (position : GeolocationPosition.t)
| Failure (err : GeolocationPositionError.t)
| StopTracking.

Definition apply (h : t) (op : Op) : t :=
  match op with
  | CheckPermission outcome => checkPermission outcome h
  | StartTracking supported watch => startTracking supported watch h
  | Success position => successCallback position h
  | Failure err => errorCallback err h
  | StopTracking => stopTracking h
  end.

Definition run (ops : list Op) : t := fold_left apply ops initial.

End UseGeolocation.

(** ** More vocabulary *)

(** What [step] keeps of the navigation state: active mode has a route,
    and the step index is 0 or the index of a step of the route. *)
Definition navInv (s : ActiveNavigationState) : Prop :=
  (mode s = active -> route s <> None) /\
  (forall r, route s = Some r ->
     currentStepIndex s = 0%nat \/
     (currentStepIndex s < List.length (NavigationRoute.steps r))%nat).

(** What every sequence of calls keeps of the hook's state. *)
Definition hookInv (s : NavigationState.t) : Prop :=
  match NavigationState.route s with
  | None =>
      NavigationState.currentStepIndex s = 0%Z /\ NavigationState.isActive s = false
  | Some r =>
      NavigationState.currentStepIndex s = 0%Z \/
      (0 <= NavigationState.currentStepIndex s
       < Z.of_nat (List.length (NavigationRoute.steps r)))%Z
  end.

(** * Properties *)

(** ** Facts about binary64 numbers *)

Lemma ltb_irrefl (x : float) : (x <? x) = false.
Proof.
  rewrite ltb_spec. unfold SFltb.
  destruct (Prim2SF x) as [s|s| |s m e]; simpl; try reflexivity.
  - destruct s; reflexivity.
  - rewrite Z.compare_refl.
    assert (H : PosDef.Pos.compare_cont Eq m m = Eq) by apply Pos.compare_cont_refl.
    rewrite H. destruct s; reflexivity.
Qed.

Lemma not_below_infinity (x : float) :
  is_nan x = false -> (x <? infinity) = false -> x = infinity.
Proof.
  intros Hn Hl.
  unfold is_nan in Hn. rewrite FloatAxioms.eqb_spec in Hn. rewrite ltb_spec in Hl.
  rewrite <- (SF2Prim_Prim2SF x).
  change (Prim2SF infinity) with (S754_infinity false) in Hl.
  destruct (Prim2SF x) as [s|s| |s m e]; simpl in *; try discriminate.
  destruct s; try discriminate. reflexivity.
Qed.

Lemma zero_classes_disjoint (x : float) :
  JS.is_neg_zero x && JS.is_pos_zero x = false.
Proof. unfold JS.is_neg_zero, JS.is_pos_zero. destruct (classify x); reflexivity. Qed.

Lemma min_step_cases (lowest number : float) :
  JS.min_step lowest number = lowest \/ JS.min_step lowest number = number.
Proof.
  unfold JS.min_step.
  destruct (JS.is_neg_zero number && JS.is_pos_zero lowest); [now right|].
  destruct (number <? lowest); [now right | now left].
Qed.

(** Taking the minimum with the same number twice changes nothing. *)
Lemma min_step_again (lowest number : float) :
  JS.min_step (JS.min_step lowest number) number = JS.min_step lowest number.
Proof.
  assert (Hsame : JS.min_step number number = number).
  { unfold JS.min_step. rewrite zero_classes_disjoint, ltb_irrefl. reflexivity. }
  unfold JS.min_step at 2 3.
  destruct (JS.is_neg_zero number && JS.is_pos_zero lowest) eqn:Hz; [exact Hsame|].
  destruct (number <? lowest) eqn:Hlt; [exact Hsame|].
  unfold JS.min_step. rewrite Hz, Hlt. reflexivity.
Qed.

Lemma min_step_infinity (x : float) :
  is_nan x = false -> JS.min_step infinity x = x.
Proof.
  intros Hn. unfold JS.min_step.
  replace (JS.is_pos_zero infinity) with false by reflexivity.
  rewrite andb_false_r.
  destruct (x <? infinity) eqn:Hlt; [reflexivity|].
  symmetry. now apply not_below_infinity.
Qed.

Lemma fold_min_step_not_nan (l : list float) (init : float) :
  is_nan init = false -> existsb is_nan l = false ->
  is_nan (fold_left JS.min_step l init) = false.
Proof.
  revert init. induction l as [|a l IH]; intros init Hi Hl; simpl in *; [exact Hi|].
  apply orb_false_iff in Hl. destruct Hl as [Ha Hl].
  apply IH; [|exact Hl].
  destruct (min_step_cases init a) as [-> | ->]; assumption.
Qed.

(** [Math.min(Math.min(...l, a), a, b)] is [Math.min(...l, a, b)]. *)
Lemma Math_min_extend (l : list float) (a b : float) :
  JS.Math_min [JS.Math_min (l ++ [a]); a; b] = JS.Math_min ((l ++ [a]) ++ [b]).
Proof.
  unfold JS.Math_min at 2 3.
  rewrite (existsb_app is_nan (l ++ [a]) [b]).
  destruct (existsb is_nan (l ++ [a])) eqn:Hnan.
  - reflexivity.
  - pose proof Hnan as Hnan'.
    rewrite existsb_app in Hnan'. apply orb_false_iff in Hnan'.
    destruct Hnan' as [_ Ha]. simpl in Ha. rewrite orb_false_r in Ha.
    assert (Hm : is_nan (fold_left JS.min_step (l ++ [a]) infinity) = false)
      by (apply fold_min_step_not_nan; [reflexivity | exact Hnan]).
    unfold JS.Math_min. cbn [existsb]. rewrite Hm, Ha. cbn [orb].
    rewrite orb_false_r.
    destruct (is_nan b) eqn:Hb; [reflexivity|].
    rewrite (fold_left_app JS.min_step (l ++ [a]) [b]).
    cbn [fold_left].
    rewrite (min_step_infinity _ Hm).
    rewrite (fold_left_app JS.min_step l [a]). cbn [fold_left].
    rewrite min_step_again. reflexivity.
Qed.

(** ** The navigation provider *)

(** C6, as the code has it: [setRerouting(true)] changes the rerouting flag
    alone; [setRerouting(false)] also clears the off-route flag. Every other
    field of the navigation state, and the legacy state of the provider, is
    left as it was. *)
Theorem setRerouting_frame (b : bool) (p : Provider) :
  let s := navigationState p in
  let p' := setRerouting b p in
  let s' := navigationState p' in
  isRerouting s' = b /\
  isOffRoute s' = (if b then isOffRoute s else false) /\
  mode s' = mode s /\ route s' = route s /\ destination s' = destination s /\
  origin s' = origin s /\ currentStepIndex s' = currentStepIndex s /\
  distanceToNextManeuver s' = distanceToNextManeuver s /\ eta s' = eta s /\
  remainingDistance s' = remainingDistance s /\
  remainingDuration s' = remainingDuration s /\
  isNavigationActive p' = isNavigationActive p /\ showSearch p' = showSearch p /\
  selectedLocation p' = selectedLocation p.
Proof. cbn. repeat split. Qed.

(** C6 fails as stated: after a failed reroute, [setRerouting(false)] turns
    a true off-route flag into false. *)
Lemma setRerouting_false_clears_offRoute :
  isOffRoute (navigationState Scenario.offRouteState) = true /\
  isOffRoute (navigationState (setRerouting false Scenario.offRouteState)) = false.
Proof. split; reflexivity. Qed.




(** C9: whatever the prior state, [updateRoute(newRoute)] stores the route,
    resets the step index to 0 and both flags to false, takes the remaining
    distance and duration from the route's totals, recomputes the ETA from
    the clock, and sets the distance to the next maneuver to the first
    step's distance (as a number: [-0] reads back as [0]); the destination,
    the mode, the origin and the legacy state are left as they were. *)
Theorem updateRoute_resets (now : float) (r : NavigationRoute.t) (p : Provider)
    (st : NavigationStep.t) (rest : list NavigationStep.t) :
  NavigationRoute.steps r = st :: rest ->
  is_nan (NavigationStep.distance st) = false ->
  let s := navigationState p in
  let p' := updateRoute now r p in
  let s' := navigationState p' in
  route s' = Some r /\
  currentStepIndex s' = 0%nat /\
  isOffRoute s' = false /\ isRerouting s' = false /\
  (distanceToNextManeuver s' =? NavigationStep.distance st) = true /\
  remainingDistance s' = NavigationRoute.distance r /\
  remainingDuration s' = NavigationRoute.duration r /\
  eta s' = Some (JS.new_Date (now + NavigationRoute.duration r * 1000)) /\
  destination s' = destination s /\ mode s' = mode s /\ origin s' = origin s /\
  isNavigationActive p' = isNavigationActive p /\ showSearch p' = showSearch p /\
  selectedLocation p' = selectedLocation p.
Proof.
  intros Hsteps Hnan. cbn.
  repeat split.
  unfold stepDistanceAt. rewrite Hsteps. cbn.
  unfold JS.or, JS.truthy. rewrite Hnan, orb_false_r.
  destruct (NavigationStep.distance st =? 0) eqn:Hz; cbn.
  - rewrite FloatAxioms.eqb_spec in *. 
    destruct (Prim2SF (NavigationStep.distance st)) as [s0|s0| |s0 m e];
      cbn in *; try discriminate; try reflexivity; destruct s0; discriminate.
  - unfold is_nan in Hnan. now apply negb_false_iff in Hnan.
Qed.

Lemma updateRoute_resets_witness :
  let s' := navigationState (updateRoute 5000 Scenario.R' Scenario.offRouteState) in
  route s' = Some Scenario.R' /\ currentStepIndex s' = 0%nat /\
  isOffRoute s' = false /\ isRerouting s' = false /\
  (distanceToNextManeuver s' =? 700) = true /\
  mode s' = active /\ destination s' = Some Scenario.dest.
Proof.
  destruct (updateRoute_resets 5000 Scenario.R' Scenario.offRouteState
              (Scenario.mkStep 700 90 (0, 0.01)) [] eq_refl eq_refl)
    as (H1 & H2 & H3 & H4 & H5 & _ & _ & _ & H9 & H10 & _).
  cbv zeta. repeat split; assumption.
Defined.

(** ** Processing a position sample *)

Lemma lastIndex_lt (r : NavigationRoute.t) (i : nat) :
  (Z.of_nat i <? lastIndex r)%Z = true <-> (S i < List.length (NavigationRoute.steps r))%nat.
Proof. unfold lastIndex. rewrite Z.ltb_lt. lia. Qed.

Lemma lastIndex_ge (r : NavigationRoute.t) (i : nat) :
  (Z.of_nat i >=? lastIndex r)%Z = true <-> (List.length (NavigationRoute.steps r) <= S i)%nat.
Proof. unfold lastIndex. rewrite Z.geb_le. lia. Qed.

(** What [processLocationUpdate] does once the route and the current step
    are there: the arrival branch, or the off-route flag and the progress. *)
Lemma processLocationUpdate_unfold (M : JS.MathLib) (now : float) (loc : LocationPoint)
    (p : Provider) (r : NavigationRoute.t) (currentStep : NavigationStep.t) :
  route (navigationState p) = Some r ->
  nth_error (NavigationRoute.steps r) (currentStepIndex (navigationState p))
    = Some currentStep ->
  let s := navigationState p in
  let idx := currentStepIndex s in
  let currentPoint := (longitude loc, latitude loc) in
  let distanceToManeuver :=
    calculateDistanceBetweenPoints M currentPoint
      (location (NavigationStep.maneuver currentStep)) in
  let newStepIndex :=
    if (distanceToManeuver <? 30) && (Z.of_nat idx <? lastIndex r)%Z
    then S idx else idx in
  let arrived :=
    match destination s with
    | Some d =>
        (Z.of_nat idx >=? lastIndex r)%Z
        && (calculateDistanceBetweenPoints M currentPoint
              (SelectedLocation.coordinates d) <? 30)
    | None => false
    end in
  let offRoute :=
    50 <? distanceToRouteSegment M currentPoint
            (coordinates (NavigationRoute.geometry r)) in
  processLocationUpdate M now loc p =
    if arrived then endNavigation p
    else
      updateNavigationProgress now currentPoint
        (if Nat.eqb newStepIndex idx then distanceToManeuver
         else JS.opt_or (stepDistanceAt r newStepIndex) 0)
        newStepIndex
        (if Bool.eqb offRoute (isOffRoute s) then p else setOffRoute offRoute p).
Proof.
  intros Hr Hst. cbv zeta. unfold processLocationUpdate. rewrite Hr.
  destruct (NavigationRoute.steps r) as [|st0 sts] eqn:Hsteps.
  - destruct (currentStepIndex (navigationState p)); discriminate.
  - rewrite Hst. reflexivity.
Qed.

Lemma updateNavigationProgress_index (now : float) (c : Coord) (d : float) (i : nat)
    (p : Provider) (r : NavigationRoute.t) :
  route (navigationState p) = Some r ->
  currentStepIndex (navigationState (updateNavigationProgress now c d i p)) = i.
Proof. intros Hr. cbn. rewrite Hr. reflexivity. Qed.

Lemma setOffRoute_if_route (b c : bool) (p : Provider) :
  route (navigationState (if b then p else setOffRoute c p)) = route (navigationState p).
Proof. destruct b; reflexivity. Qed.

Lemma updateNavigationProgress_mode (now : float) (c : Coord) (d : float) (i : nat)
    (p : Provider) :
  mode (navigationState (updateNavigationProgress now c d i p)) = mode (navigationState p).
Proof. cbn. destruct (route (navigationState p)); reflexivity. Qed.

Lemma updateNavigationProgress_isOffRoute (now : float) (c : Coord) (d : float) (i : nat)
    (p : Provider) :
  isOffRoute (navigationState (updateNavigationProgress now c d i p))
  = isOffRoute (navigationState p).
Proof. cbn. destruct (route (navigationState p)); reflexivity. Qed.

(** C5: one call of [processLocationUpdate] moves [currentStepIndex] up by
    exactly one if and only if the sample is within 30 m of the current
    step's maneuver and the current step is not the last; it never moves it
    up by more than one, wherever the sample lies. *)
Theorem step_advances_by_one (M : JS.MathLib) (now : float) (loc : LocationPoint)
    (p : Provider) :
  let i := currentStepIndex (navigationState p) in
  let i' := currentStepIndex (navigationState (processLocationUpdate M now loc p)) in
  (i' = S i <-> advanceRule M loc (navigationState p)) /\ (i' <= S i)%nat.
Proof.
  cbv zeta. unfold advanceRule.
  destruct (route (navigationState p)) as [r|] eqn:Hr.
  2:{ unfold processLocationUpdate. rewrite Hr. split; [split|lia].
      - lia.
      - intros (r & st & H & _). discriminate. }
  destruct (nth_error (NavigationRoute.steps r) (currentStepIndex (navigationState p)))
    as [st|] eqn:Hst.
  2:{ assert (Hsame : processLocationUpdate M now loc p = p).
      { unfold processLocationUpdate. rewrite Hr.
        destruct (NavigationRoute.steps r); [reflexivity|]. now rewrite Hst. }
      rewrite Hsame. split; [split|lia].
      - lia.
      - intros (r0 & st & H1 & H2 & _). congruence. }
  rewrite (processLocationUpdate_unfold M now loc p r st Hr Hst).
  set (dm := calculateDistanceBetweenPoints M _ (location _)).
  destruct ((Z.of_nat (currentStepIndex (navigationState p)) <? lastIndex r)%Z) eqn:Hlast.
  - (* not the last step: no arrival *)
    assert (Hge : (Z.of_nat (currentStepIndex (navigationState p)) >=? lastIndex r)%Z = false).
    { apply Z.ltb_lt in Hlast. rewrite Z.geb_leb. apply Z.leb_gt. lia. }
    rewrite Hge. cbn [andb].
    replace (match destination (navigationState p) with Some _ => false | None => false end)
      with false by (destruct (destination (navigationState p)); reflexivity).
    rewrite (updateNavigationProgress_index _ _ _ _ _ r)
      by (rewrite setOffRoute_if_route; exact Hr).
    apply lastIndex_lt in Hlast.
    destruct (dm <? 30) eqn:Hd; cbn [andb]; split; try lia.
    + split; [intros _|reflexivity]. exists r, st. repeat split; assumption.
    + split; [lia|]. intros (r0 & st0 & H1 & H2 & H3 & _).
      assert (r0 = r) by congruence. subst r0.
      assert (st0 = st) by congruence. subst st0.
      unfold dm in Hd. congruence.
  - (* the last step: the index stays, or the state is reset *)
    rewrite andb_false_r.
    assert (Hno : ~ (S (currentStepIndex (navigationState p))
                     < List.length (NavigationRoute.steps r))%nat).
    { intros H. apply lastIndex_lt in H. congruence. }
    match goal with |- context [if ?c then endNavigation p else _] => destruct c end.
    + cbn. split; [split|lia].
      * discriminate.
      * intros (r0 & st0 & H1 & _ & _ & H4).
        assert (r0 = r) by congruence. subst r0. contradiction.
    + rewrite (updateNavigationProgress_index _ _ _ _ _ r)
        by (rewrite setOffRoute_if_route; exact Hr).
      split; [split|lia].
      * lia.
      * intros (r0 & st0 & H1 & _ & _ & H4).
        assert (r0 = r) by congruence. subst r0. contradiction.
Qed.

(** C1, as the code has it: when the stored step index is the last step
    before the sample is processed and the sample lies within 30 m of the
    destination, [processLocationUpdate] ends the navigation and does
    nothing else: the state is the initial one (idle, no route). Processing
    the same sample again, with or without the duplicate guard, leaves that
    state unchanged. *)
Theorem arrival_at_last_step (M : JS.MathLib) (now now' : float) (loc : LocationPoint)
    (p : Provider) (r : NavigationRoute.t) (d : SelectedLocation.t)
    (currentStep : NavigationStep.t) :
  route (navigationState p) = Some r ->
  destination (navigationState p) = Some d ->
  nth_error (NavigationRoute.steps r) (currentStepIndex (navigationState p))
    = Some currentStep ->
  S (currentStepIndex (navigationState p)) = List.length (NavigationRoute.steps r) ->
  (calculateDistanceBetweenPoints M (longitude loc, latitude loc)
     (SelectedLocation.coordinates d) <? 30) = true ->
  let p' := processLocationUpdate M now loc p in
  p' = endNavigation p /\
  navigationState p' = initialNavigationState /\
  mode (navigationState p') = idle /\ route (navigationState p') = None /\
  watchLocation M now (Some loc) (p, None) = (p', Some loc) /\
  processLocationUpdate M now' loc p' = p' /\
  watchLocation M now' (Some loc) (p', Some loc) = (p', Some loc).
Proof.
  intros Hr Hd Hst Hlast Hnear. cbv zeta.
  assert (Hp : processLocationUpdate M now loc p = endNavigation p).
  { rewrite (processLocationUpdate_unfold M now loc p r currentStep Hr Hst).
    rewrite Hd, Hnear.
    assert (Hge : (Z.of_nat (currentStepIndex (navigationState p)) >=? lastIndex r)%Z = true)
      by (apply lastIndex_ge; lia).
    rewrite Hge. reflexivity. }
  rewrite Hp.
  assert (Hagain : processLocationUpdate M now' loc (endNavigation p) = endNavigation p)
    by reflexivity.
  split; [reflexivity|]. split; [reflexivity|]. split; [reflexivity|].
  split; [reflexivity|]. split; [|split].
  - cbn. rewrite Hp. reflexivity.
  - exact Hagain.
  - unfold watchLocation. cbn [fst snd]. rewrite Hagain.
    destruct (sameLocation (Some loc) loc); reflexivity.
Qed.

Lemma arrival_at_last_step_witness :
  let p := Scenario.shortStarted in
  let at_last := updateNavigationProgress 0 (0, 0.0009) 10 1 p in
  let loc := Scenario.sample 0 0.00095 2 in
  let p' := processLocationUpdate Scenario.M 0 loc at_last in
  navigationState p' = initialNavigationState /\
  watchLocation Scenario.M 1 (Some loc) (p', Some loc) = (p', Some loc).
Proof.
  cbv zeta.
  destruct (arrival_at_last_step Scenario.M 0 1 (Scenario.sample 0 0.00095 2)
              (updateNavigationProgress 0 (0, 0.0009) 10 1 Scenario.shortStarted)
              Scenario.shortRoute Scenario.shortDest
              (Scenario.mkStep 10 5 (0, 0.001))
              eq_refl eq_refl eq_refl eq_refl)
    as (_ & H2 & _ & _ & _ & _ & H7).
  - vm_compute. reflexivity.
  - split; assumption.
Defined.

(** C1 fails as stated: a sample that itself advances to the last step, and
    lies within 30 m of the destination, leaves the navigation active. The
    arrival test reads the step index the view was rendered with. *)
Lemma arrival_skips_advancing_sample :
  let p := Scenario.shortStarted in
  let loc := Scenario.sample 0 0.0009 1 in
  let p' := processLocationUpdate Scenario.M 0 loc p in
  mode (navigationState p) = active /\
  currentStepIndex (navigationState p) = 0%nat /\
  (calculateDistanceBetweenPoints Scenario.M (0, 0.0009) (0, 0.0009) <? 30) = true /\
  (calculateDistanceBetweenPoints Scenario.M (0, 0.0009) (0, 0.001) <? 30) = true /\
  currentStepIndex (navigationState p') = 1%nat /\
  List.length (NavigationRoute.steps Scenario.shortRoute) = 2%nat /\
  mode (navigationState p') = active /\
  route (navigationState p') = Some Scenario.shortRoute.
Proof. vm_compute. repeat split. Qed.

(** ** Distance to the route *)

Lemma segmentLoop_next (M : JS.MathLib) (point a b : Coord) (rest : list Coord)
    (minDistance : float) :
  segmentLoop M point (a :: b :: rest) minDistance
  = segmentLoop M point (b :: rest)
      (JS.Math_min [minDistance; calculateDistanceBetweenPoints M point a;
                    calculateDistanceBetweenPoints M point b]).
Proof. reflexivity. Qed.

Lemma segmentLoop_min (M : JS.MathLib) (point : Coord) (rest : list Coord)
    (seen : list float) (c : Coord) :
  segmentLoop M point (c :: rest)
    (JS.Math_min (seen ++ [calculateDistanceBetweenPoints M point c]))
  = JS.Math_min
      ((seen ++ [calculateDistanceBetweenPoints M point c])
       ++ map (calculateDistanceBetweenPoints M point) rest).
Proof.
  revert seen c. induction rest as [|c' rest IH]; intros seen c.
  - cbn [segmentLoop map]. now rewrite app_nil_r.
  - rewrite segmentLoop_next. cbn [map].
    rewrite Math_min_extend.
    rewrite IH.
    now rewrite <- (app_assoc _ [_] (map _ rest)).
Qed.

Lemma Math_min_first_pair (a b : float) :
  JS.Math_min [infinity; a; b] = JS.Math_min ([a] ++ [b]).
Proof.
  unfold JS.Math_min. cbn [existsb app].
  replace (is_nan infinity) with false by reflexivity. cbn [orb].
  destruct (is_nan a) eqn:Ha; [reflexivity|]. cbn [orb].
  destruct (is_nan b) eqn:Hb; [reflexivity|].
  cbn [fold_left].
  replace (JS.min_step infinity infinity) with infinity by reflexivity.
  reflexivity.
Qed.

(** C10: [distanceToRouteSegment] is [+Infinity] on fewer than two points,
    and otherwise [Math.min] over the distances from the point to every
    vertex of the polyline; no segment is projected onto. While navigation
    stays active, a processed sample leaves the off-route flag true exactly
    when that distance exceeds 50 m. *)
Theorem distanceToRouteSegment_is_vertex_minimum (M : JS.MathLib) (point : Coord)
    (polyline : list Coord) (now : float) (loc : LocationPoint) (p : Provider)
    (r : NavigationRoute.t) (currentStep : NavigationStep.t) :
  ((List.length polyline < 2)%nat ->
     distanceToRouteSegment M point polyline = infinity) /\
  ((2 <= List.length polyline)%nat ->
     distanceToRouteSegment M point polyline = minVertexDistance M point polyline) /\
  (route (navigationState p) = Some r ->
   nth_error (NavigationRoute.steps r) (currentStepIndex (navigationState p))
     = Some currentStep ->
   mode (navigationState p) = active ->
   mode (navigationState (processLocationUpdate M now loc p)) = active ->
   isOffRoute (navigationState (processLocationUpdate M now loc p))
   = (50 <? distanceToRouteSegment M (longitude loc, latitude loc)
              (coordinates (NavigationRoute.geometry r)))).
Proof.
  split; [|split].
  - intros Hlen. unfold distanceToRouteSegment.
    apply Nat.ltb_lt in Hlen. now rewrite Hlen.
  - intros Hlen. unfold distanceToRouteSegment, minVertexDistance.
    destruct polyline as [|a [|b rest]]; cbn [List.length] in Hlen; try lia.
    cbn [List.length Nat.ltb Nat.leb]. rewrite segmentLoop_next. cbn [map].
    rewrite Math_min_first_pair.
    rewrite (segmentLoop_min M point rest [_] b).
    now rewrite <- app_assoc.
  - intros Hr Hst Hmode Hstill.
    rewrite (processLocationUpdate_unfold M now loc p r currentStep Hr Hst) in *.
    match type of Hstill with context [if ?c then endNavigation p else _] =>
      destruct c end.
    + cbn in Hstill. discriminate.
    + rewrite updateNavigationProgress_isOffRoute.
      match goal with |- context [Bool.eqb ?c ?d] => destruct (Bool.eqb c d) eqn:He end.
      * apply Bool.eqb_prop in He. now symmetry.
      * reflexivity.
Qed.

Lemma distanceToRouteSegment_is_vertex_minimum_witness :
  distanceToRouteSegment Scenario.M (0.001, 0.003) [(0, 0.004)] = infinity /\
  distanceToRouteSegment Scenario.M (0.001, 0.003) [(0, 0); (0, 0.004); (0, 0.01)]
  = minVertexDistance Scenario.M (0.001, 0.003) [(0, 0); (0, 0.004); (0, 0.01)] /\
  isOffRoute (navigationState
    (processLocationUpdate Scenario.M 0 (Scenario.sample 0.001 0.003 2)
       (Scenario.started 0 Scenario.straight)))
  = (50 <? distanceToRouteSegment Scenario.M (0.001, 0.003)
             [(0, 0); (0, 0.004); (0, 0.01)]).
Proof.
  split; [|split].
  - apply (proj1 (distanceToRouteSegment_is_vertex_minimum Scenario.M (0.001, 0.003)
             [(0, 0.004)] 0 (Scenario.sample 0.001 0.003 2)
             (Scenario.started 0 Scenario.straight) (Scenario.R Scenario.straight)
             (Scenario.mkStep 400 40 (0, 0.004)))).
    cbn. lia.
  - apply (proj1 (proj2 (distanceToRouteSegment_is_vertex_minimum Scenario.M (0.001, 0.003)
             [(0, 0); (0, 0.004); (0, 0.01)] 0 (Scenario.sample 0.001 0.003 2)
             (Scenario.started 0 Scenario.straight) (Scenario.R Scenario.straight)
             (Scenario.mkStep 400 40 (0, 0.004))))).
    cbn. lia.
  - apply (proj2 (proj2 (distanceToRouteSegment_is_vertex_minimum Scenario.M (0.001, 0.003)
             [(0, 0); (0, 0.004); (0, 0.01)] 0 (Scenario.sample 0.001 0.003 2)
             (Scenario.started 0 Scenario.straight) (Scenario.R Scenario.straight)
             (Scenario.mkStep 400 40 (0, 0.004)))));
      vm_compute; reflexivity.
Defined.

(** ** The two-step scenario *)





(** ** The effects of a render *)

Lemma RerouteDeps_eqb_refl (d : RerouteDeps) : RerouteDeps_eqb d d = true.
Proof.
  unfold RerouteDeps_eqb.
  now rewrite !Bool.eqb_reflx, !Nat.eqb_refl.
Qed.

Lemma LocationDeps_eqb_refl (d : LocationDeps) : LocationDeps_eqb d d = true.
Proof.
  unfold LocationDeps_eqb.
  now rewrite !Bool.eqb_reflx, !Nat.eqb_refl.
Qed.

Lemma RerouteDeps_eqb_eq (a b : RerouteDeps) : RerouteDeps_eqb a b = true -> a = b.
Proof.
  destruct a, b. unfold RerouteDeps_eqb. cbn.
  rewrite !andb_true_iff. intros [[[H1 H2] H3] H4].
  apply Bool.eqb_prop in H1, H2. apply Nat.eqb_eq in H3, H4. congruence.
Qed.

Lemma stableb_view (w : World) (v : View) :
  stableb w = true -> view w = Some v ->
  is_active w = true /\
  rerouteDeps v = Some (rerouteDepsOf w) /\
  ranWith LocationDeps_eqb (locationDeps v) (locationDepsOf w) = true.
Proof.
  unfold stableb. intros Hs Hv. rewrite Hv in Hs.
  apply andb_true_iff in Hs. destruct Hs as [Hs Hl].
  apply andb_true_iff in Hs. destruct Hs as [Ha Hr].
  repeat split; try assumption.
  unfold ranWith in Hr. destruct (rerouteDeps v) as [d|]; [|discriminate].
  f_equal. now apply RerouteDeps_eqb_eq.
Qed.

Lemma stableb_intro (w : World) (v : View) :
  view w = Some v -> is_active w = true ->
  rerouteDeps v = Some (rerouteDepsOf w) ->
  locationDeps v = Some (locationDepsOf w) ->
  stableb w = true.
Proof.
  intros Hv Ha Hr Hl. unfold stableb. rewrite Hv, Ha, Hr, Hl. cbn.
  now rewrite RerouteDeps_eqb_refl, LocationDeps_eqb_refl.
Qed.

Lemma ranWith_RerouteDeps (last : option RerouteDeps) (d : RerouteDeps) :
  ranWith RerouteDeps_eqb last d = true -> last = Some d.
Proof.
  unfold ranWith. destruct last as [d'|]; [|discriminate].
  intros H. f_equal. now apply RerouteDeps_eqb_eq.
Qed.

Lemma rerouteEffect_frame (w : World) (v : View) :
  viewId (rerouteEffect w v) = viewId v /\
  lastProcessedLocationRef (rerouteEffect w v) = lastProcessedLocationRef v /\
  isReroutingRef (rerouteEffect w v) = isReroutingRef v /\
  locationDeps (rerouteEffect w v) = locationDeps v /\
  rerouteDeps (rerouteEffect w v) = Some (rerouteDepsOf w).
Proof.
  unfold rerouteEffect.
  destruct (ranWith RerouteDeps_eqb (rerouteDeps v) (rerouteDepsOf w)) eqn:Hran.
  - repeat split. now apply ranWith_RerouteDeps.
  - repeat split.
Qed.

(** The timeout after the reroute effect: kept when the dependencies are
    the same, otherwise armed afresh, and only while off route. *)
Lemma rerouteEffect_timer (w : World) (v : View) (tm : Timer) :
  rerouteTimeout (rerouteEffect w v) = Some tm ->
  (rerouteTimeout v = Some tm /\ rerouteDeps v = Some (rerouteDepsOf w)) \/
  (deadline tm = (clock w + 3000)%Z /\ isOffRoute (nav w) = true /\
   isRerouting (nav w) = false).
Proof.
  unfold rerouteEffect.
  destruct (ranWith RerouteDeps_eqb (rerouteDeps v) (rerouteDepsOf w)) eqn:Hran.
  - intros H. left. split; [exact H|]. now apply ranWith_RerouteDeps.
  - cbn. destruct (isOffRoute (nav w)); [|discriminate].
    destruct (isRerouting (nav w)); [discriminate|]. cbn.
    destruct (position w); [|discriminate].
    intros H. injection H as <-. right. repeat split.
Qed.

Lemma locationEffect_frame (M : JS.MathLib) (w : World) (v : View) :
  viewId (snd (locationEffect M w v)) = viewId v /\
  rerouteTimeout (snd (locationEffect M w v)) = rerouteTimeout v /\
  isReroutingRef (snd (locationEffect M w v)) = isReroutingRef v /\
  rerouteDeps (snd (locationEffect M w v)) = rerouteDeps v.
Proof.
  unfold locationEffect.
  destruct (ranWith LocationDeps_eqb (locationDeps v) (locationDepsOf w)); repeat split.
Qed.

Lemma runEffects_frame (M : JS.MathLib) (w : World) (v : View) :
  position (runEffects M w v) = position w /\
  positionGen (runEffects M w v) = positionGen w /\
  routeGen (runEffects M w v) = routeGen w /\
  destinationGen (runEffects M w v) = destinationGen w /\
  nextViewId (runEffects M w v) = nextViewId w /\
  pending (runEffects M w v) = pending w /\
  clock (runEffects M w v) = clock w /\
  routingCalls (runEffects M w v) = routingCalls w /\
  NEXT_PUBLIC_MAPBOX_TOKEN (runEffects M w v) = NEXT_PUBLIC_MAPBOX_TOKEN w.
Proof. unfold runEffects. cbn. repeat split. Qed.

Lemma runEffects_view (M : JS.MathLib) (w : World) (v : View) :
  exists v', view (runEffects M w v) = Some v' /\
    viewId v' = viewId v /\ isReroutingRef v' = isReroutingRef v /\
    rerouteTimeout v' = rerouteTimeout (rerouteEffect w v) /\
    rerouteDeps v' = Some (rerouteDepsOf w).
Proof.
  unfold runEffects. cbn [view set_view]. eexists. split; [reflexivity|].
  destruct (locationEffect_frame M w (rerouteEffect w v)) as (H1 & H2 & H3 & H4).
  destruct (rerouteEffect_frame w v) as (G1 & _ & G3 & _ & G5).
  rewrite H1, H2, H3, H4. repeat split; assumption.
Qed.

(** A render issues no routing call and settles no request. *)
Lemma render_frame (M : JS.MathLib) (w : World) :
  pending (render M w) = pending w /\
  clock (render M w) = clock w /\
  routingCalls (render M w) = routingCalls w /\
  positionGen (render M w) = positionGen w /\
  destinationGen (render M w) = destinationGen w.
Proof.
  unfold render. destruct (view w) as [v|]; destruct (is_active w).
  - destruct (runEffects_frame M w v) as (_ & H2 & _ & H4 & _ & H6 & H7 & H8 & _).
    repeat split; assumption.
  - repeat split.
  - match goal with |- context [runEffects M ?w1 ?v1] =>
      destruct (runEffects_frame M w1 v1) as (_ & H2 & _ & H4 & _ & H6 & H7 & H8 & _)
    end.
    repeat split; assumption.
  - repeat split.
Qed.

(** ** The duplicate guard *)

Lemma rerouteEffect_new_position (w : World) (v : View) (loc : LocationPoint) :
  stableb w = true -> view w = Some v ->
  rerouteEffect (handle w (SetPosition loc)) v
  = {| viewId := viewId v;
       lastProcessedLocationRef := lastProcessedLocationRef v;
       rerouteTimeout :=
         if isOffRoute (nav w) && negb (isRerouting (nav w)) then
           Some {| deadline := clock w + 3000;
                   timerLocation := loc;
                   timerDestination := destination (nav w) |}
         else None;
       isReroutingRef := isReroutingRef v;
       rerouteDeps := Some (rerouteDepsOf (handle w (SetPosition loc)));
       locationDeps := locationDeps v |}.
Proof.
  intros Hs Hv. destruct (stableb_view w v Hs Hv) as (_ & Hrd & _).
  unfold rerouteEffect.
  assert (Hran : ranWith RerouteDeps_eqb (rerouteDeps v)
                   (rerouteDepsOf (handle w (SetPosition loc))) = false).
  { rewrite Hrd. cbn [ranWith]. unfold RerouteDeps_eqb, rerouteDepsOf.
    cbn [handle dep_currentLocation positionGen].
    replace (Nat.eqb (positionGen w) (S (positionGen w))) with false
      by (symmetry; apply Nat.eqb_neq; lia).
    now rewrite andb_false_r. }
  rewrite Hran. reflexivity.
Qed.

Lemma locationEffect_new_position (M : JS.MathLib) (w : World) (v v1 : View)
    (loc : LocationPoint) :
  stableb w = true -> view w = Some v -> locationDeps v1 = locationDeps v ->
  locationEffect M (handle w (SetPosition loc)) v1
  = (fst (watchLocation M (Date_now (clock w)) (Some loc)
            (provider w, lastProcessedLocationRef v1)),
     {| viewId := viewId v1;
        lastProcessedLocationRef :=
          snd (watchLocation M (Date_now (clock w)) (Some loc)
                 (provider w, lastProcessedLocationRef v1));
        rerouteTimeout := rerouteTimeout v1;
        isReroutingRef := isReroutingRef v1;
        rerouteDeps := rerouteDeps v1;
        locationDeps := Some (locationDepsOf (handle w (SetPosition loc))) |}).
Proof.
  intros Hs Hv Hld. destruct (stableb_view w v Hs Hv) as (_ & _ & Hl).
  unfold locationEffect.
  assert (Hran : ranWith LocationDeps_eqb (locationDeps v1)
                   (locationDepsOf (handle w (SetPosition loc))) = false).
  { rewrite Hld. unfold ranWith in *. destruct (locationDeps v) as [d|]; [|reflexivity].
    unfold LocationDeps_eqb in *. unfold locationDepsOf in *.
    cbn [handle positionGen ldep_currentLocation] in *.
    rewrite !andb_true_iff in Hl. destruct Hl as [[[[Hg _] _] _] _].
    apply Nat.eqb_eq in Hg. rewrite Hg.
    replace (Nat.eqb (positionGen w) (S (positionGen w))) with false
      by (symmetry; apply Nat.eqb_neq; lia).
    reflexivity. }
  rewrite Hran. reflexivity.
Qed.

(** C7, as the code has it. The guard compares timestamp, latitude and
    longitude, and nothing else. A sample equal in all three to the last
    processed one is ignored: the effect returns before
    [processLocationUpdate], so the provider and the ref are as they were;
    in the running view, delivering such a sample and rendering leaves the
    navigation state, the pending requests and the count of routing calls
    unchanged and the world stable. One thing does happen: the position is
    a new object, so the reroute effect runs again and the 3 second timeout
    is armed afresh when the view is off route and not rerouting. A sample
    that differs in any of the three, an older one included, is processed. *)
Theorem duplicate_sample_ignored (M : JS.MathLib) (now : float)
    (last loc : LocationPoint) (p : Provider) (w : World) (v : View) :
  ((timestamp last =? timestamp loc) = true ->
   (latitude last =? latitude loc) = true ->
   (longitude last =? longitude loc) = true ->
   watchLocation M now (Some loc) (p, Some last) = (p, Some last) /\
   (stableb w = true -> view w = Some v ->
    lastProcessedLocationRef v = Some last ->
    let w' := run M w [SetPosition loc; Render] in
    provider w' = provider w /\
    pending w' = pending w /\
    routingCalls w' = routingCalls w /\
    stableb w' = true /\
    exists v', view w' = Some v' /\
      viewId v' = viewId v /\
      lastProcessedLocationRef v' = Some last /\
      isReroutingRef v' = isReroutingRef v /\
      rerouteTimeout v'
      = if isOffRoute (nav w) && negb (isRerouting (nav w))
        then Some {| deadline := clock w + 3000;
                     timerLocation := loc;
                     timerDestination := destination (nav w) |}
        else None)) /\
  ((timestamp last =? timestamp loc) = false \/
   (latitude last =? latitude loc) = false \/
   (longitude last =? longitude loc) = false ->
   watchLocation M now (Some loc) (p, Some last)
   = (processLocationUpdate M now loc p, Some loc) /\
   (stableb w = true -> view w = Some v ->
    lastProcessedLocationRef v = Some last ->
    let w' := run M w [SetPosition loc; Render] in
    provider w' = processLocationUpdate M (Date_now (clock w)) loc (provider w) /\
    option_map lastProcessedLocationRef (view w') = Some (Some loc))).
Proof.
  assert (Hrender : stableb w = true -> view w = Some v ->
            run M w [SetPosition loc; Render]
            = runEffects M (handle w (SetPosition loc)) v).
  { intros Hs Hv. unfold run. cbn [fold_left].
    assert (H1 : step M w (SetPosition loc) = handle w (SetPosition loc))
      by (unfold step; now rewrite Hs).
    rewrite H1. cbn [step]. unfold render.
    destruct (stableb_view w v Hs Hv) as (Hact & _).
    replace (view (handle w (SetPosition loc))) with (Some v) by (symmetry; exact Hv).
    replace (is_active (handle w (SetPosition loc))) with true
      by (symmetry; exact Hact).
    reflexivity. }
  split.
  - intros Ht Hlat Hlon.
    assert (Hsame : sameLocation (Some last) loc = true)
      by (unfold sameLocation; now rewrite Ht, Hlat, Hlon).
    split.
    + unfold watchLocation. cbn [snd]. now rewrite Hsame.
    + intros Hs Hv Hlast. cbv zeta. rewrite (Hrender Hs Hv).
      destruct (stableb_view w v Hs Hv) as (Hact & _).
      unfold runEffects.
      rewrite (rerouteEffect_new_position w v loc Hs Hv).
      match goal with |- context [locationEffect M _ ?v1] =>
        rewrite (locationEffect_new_position M w v v1 loc Hs Hv eq_refl)
      end.
      cbn [lastProcessedLocationRef]. rewrite Hlast.
      unfold watchLocation. cbn [snd fst]. rewrite Hsame. cbn [fst snd].
      split; [reflexivity|]. split; [reflexivity|]. split; [reflexivity|].
      split.
      * eapply stableb_intro; [reflexivity | exact Hact | reflexivity | reflexivity].
      * eexists. split; [reflexivity|]. cbn.
        split; [reflexivity|]. split; [reflexivity|]. split; reflexivity.
  - intros Hdiff.
    assert (Hsame : sameLocation (Some last) loc = false).
    { unfold sameLocation. destruct Hdiff as [H | [H | H]]; rewrite H.
      - reflexivity.
      - now rewrite andb_false_r.
      - now rewrite andb_false_r. }
    split.
    + unfold watchLocation. cbn [snd fst]. now rewrite Hsame.
    + intros Hs Hv Hlast. cbv zeta. rewrite (Hrender Hs Hv).
      unfold runEffects.
      rewrite (rerouteEffect_new_position w v loc Hs Hv).
      match goal with |- context [locationEffect M _ ?v1] =>
        rewrite (locationEffect_new_position M w v v1 loc Hs Hv eq_refl)
      end.
      cbn [lastProcessedLocationRef]. rewrite Hlast.
      unfold watchLocation. cbn [snd fst]. rewrite Hsame. cbn [fst snd].
      split; reflexivity.
Qed.

(** The traveler is off route, the timeout is due at 3000 ms, and at
    2999 ms the last position is delivered once more; then a different,
    older position is delivered. *)
Lemma duplicate_sample_ignored_witness :
  let w := run Scenario.M Scenario.w0
             (Scenario.startSession
              ++ [SetPosition (Scenario.sample 0.001 0.003 2); Render; Render;
                  Tick 2999]) in
  let duplicate := Scenario.sample 0.001 0.003 2 in
  let older := Scenario.sample 0.001 0.0031 1 in
  let w' := run Scenario.M w [SetPosition duplicate; Render] in
  let w'' := run Scenario.M w [SetPosition older; Render] in
  watchLocation Scenario.M 7 (Some duplicate) (provider w, Some duplicate)
  = (provider w, Some duplicate) /\
  watchLocation Scenario.M 7 (Some older) (provider w, Some duplicate)
  = (processLocationUpdate Scenario.M 7 older (provider w), Some older) /\
  option_map (option_map deadline) (option_map rerouteTimeout (view w))
  = Some (Some 3000%Z) /\
  provider w' = provider w /\
  routingCalls w' = routingCalls w /\
  stableb w' = true /\
  (exists v', view w' = Some v' /\
     lastProcessedLocationRef v' = Some duplicate /\
     option_map deadline (rerouteTimeout v') = Some 5999%Z) /\
  provider w''
  = processLocationUpdate Scenario.M (Date_now (clock w)) older (provider w) /\
  option_map lastProcessedLocationRef (view w'') = Some (Some older).
Proof.
  cbv zeta.
  set (w := run Scenario.M Scenario.w0
              (Scenario.startSession
               ++ [SetPosition (Scenario.sample 0.001 0.003 2); Render; Render;
                   Tick 2999])).
  destruct (view w) as [v|] eqn:Hv; [|vm_compute in Hv; discriminate].
  assert (Hlast : lastProcessedLocationRef v = Some (Scenario.sample 0.001 0.003 2))
    by (vm_compute in Hv; injection Hv as <-; reflexivity).
  assert (Hs : stableb w = true) by (vm_compute; reflexivity).
  assert (Hoff : isOffRoute (nav w) && negb (isRerouting (nav w)) = true)
    by (vm_compute; reflexivity).
  assert (Hclock : clock w = 2999%Z) by (vm_compute; reflexivity).
  destruct (duplicate_sample_ignored Scenario.M 7
              (Scenario.sample 0.001 0.003 2) (Scenario.sample 0.001 0.003 2)
              (provider w) w v) as [Hdup _].
  destruct (duplicate_sample_ignored Scenario.M 7
              (Scenario.sample 0.001 0.003 2) (Scenario.sample 0.001 0.0031 1)
              (provider w) w v) as [_ Hold].
  destruct (Hdup eq_refl eq_refl eq_refl) as [D0 Hdup'].
  destruct (Hdup' Hs Hv Hlast) as (D1 & _ & D3 & D4 & v' & D5 & _ & D7 & _ & D9).
  destruct (Hold (or_introl eq_refl)) as [O0 Hold'].
  destruct (Hold' Hs Hv Hlast) as (O1 & O2).
  split; [exact D0|]. split; [exact O0|].
  split; [vm_compute in Hv; injection Hv as <-; reflexivity|].
  split; [exact D1|]. split; [exact D3|]. split; [exact D4|].
  split.
  - exists v'. split; [exact D5|]. split; [exact D7|].
    rewrite D9, Hoff, Hclock. reflexivity.
  - split; [exact O1 | exact O2].
Defined.

(** C7 fails as stated, twice. A sample older than the last processed one
    is not ignored: it replaces the ref and moves the navigation state
    (here the origin). And a sample identical to the last processed one is
    not without effect: delivered at 2999 ms to a view whose reroute
    timeout is due at 3000 ms, it puts the timeout off to 5999 ms. *)
Lemma stale_sample_is_not_ignored :
  let p := Scenario.started 0 Scenario.straight in
  let last := Scenario.sample 0 0.002 100 in
  let older := Scenario.sample 0 0.0021 50 in
  let result := watchLocation Scenario.M 7 (Some older) (p, Some last) in
  let w := run Scenario.M Scenario.w0
             (Scenario.startSession
              ++ [SetPosition (Scenario.sample 0.001 0.003 2); Render; Render;
                  Tick 2999]) in
  let w' := run Scenario.M w [SetPosition (Scenario.sample 0.001 0.003 2); Render] in
  ((timestamp older <? timestamp last) = true /\
   origin (navigationState p) = Some (0, 0) /\
   origin (navigationState (fst result)) = Some (0, 0.0021) /\
   snd result = Some older) /\
  (option_map lastProcessedLocationRef (view w)
   = Some (Some (Scenario.sample 0.001 0.003 2)) /\
   option_map (option_map deadline) (option_map rerouteTimeout (view w))
   = Some (Some 3000%Z) /\
   option_map (option_map deadline) (option_map rerouteTimeout (view w'))
   = Some (Some 5999%Z)).
Proof. vm_compute. repeat split. Qed.

(** ** Renders settle *)

Lemma LocationDeps_eqb_eq (a b : LocationDeps) : LocationDeps_eqb a b = true -> a = b.
Proof.
  destruct a, b. unfold LocationDeps_eqb. cbn.
  rewrite !andb_true_iff. intros [[[[H1 H2] H3] H4] H5].
  apply Nat.eqb_eq in H1, H2, H3, H4. apply Bool.eqb_prop in H5. congruence.
Qed.

Lemma ranWith_LocationDeps (last : option LocationDeps) (d : LocationDeps) :
  ranWith LocationDeps_eqb last d = true -> last = Some d.
Proof.
  unfold ranWith. destruct last as [d'|]; [|discriminate].
  intros H. f_equal. now apply LocationDeps_eqb_eq.
Qed.

(** A render of a stable world does nothing. *)
Lemma render_stable (M : JS.MathLib) (w : World) : stableb w = true -> render M w = w.
Proof.
  unfold stableb, render. destruct (view w) as [v|] eqn:Hv.
  - intros H. apply andb_true_iff in H. destruct H as [H Hl].
    apply andb_true_iff in H. destruct H as [Ha Hr]. rewrite Ha.
    unfold runEffects, rerouteEffect. rewrite Hr.
    unfold locationEffect. rewrite Hl. cbn [fst snd].
    destruct w. cbn in *. now subst.
  - intros H. apply negb_true_iff in H. now rewrite H.
Qed.

Lemma processLocationUpdate_index_bound (M : JS.MathLib) (now : float)
    (loc : LocationPoint) (p : Provider) :
  (currentStepIndex (navigationState (processLocationUpdate M now loc p))
   <= S (currentStepIndex (navigationState p)))%nat.
Proof.
  destruct (route (navigationState p)) as [r|] eqn:Hr.
  2:{ unfold processLocationUpdate. rewrite Hr. lia. }
  destruct (nth_error (NavigationRoute.steps r) (currentStepIndex (navigationState p)))
    as [st|] eqn:Hst.
  2:{ unfold processLocationUpdate. rewrite Hr.
      destruct (NavigationRoute.steps r); [lia|]. rewrite Hst. lia. }
  rewrite (processLocationUpdate_unfold M now loc p r st Hr Hst).
  match goal with |- context [if ?c then endNavigation p else _] => destruct c end.
  - cbn. lia.
  - rewrite (updateNavigationProgress_index _ _ _ _ _ r)
      by (rewrite setOffRoute_if_route; exact Hr).
    match goal with |- context [if ?c then S _ else _] => destruct c end; lia.
Qed.

(** The location effect either is skipped, or hits the duplicate guard, or
    processes the position and remembers it. *)
Lemma locationEffect_cases (M : JS.MathLib) (w : World) (v : View) :
  let r := locationEffect M w v in
  rerouteTimeout (snd r) = rerouteTimeout v /\
  rerouteDeps (snd r) = rerouteDeps v /\
  locationDeps (snd r) = Some (locationDepsOf w) /\
  ((fst r = provider w /\
    lastProcessedLocationRef (snd r) = lastProcessedLocationRef v) \/
   (exists loc, position w = Some loc /\
      sameLocation (lastProcessedLocationRef v) loc = false /\
      fst r = processLocationUpdate M (Date_now (clock w)) loc (provider w) /\
      lastProcessedLocationRef (snd r) = Some loc)).
Proof.
  cbv zeta. unfold locationEffect.
  destruct (ranWith LocationDeps_eqb (locationDeps v) (locationDepsOf w)) eqn:Hran.
  - cbn [fst snd]. repeat split.
    + now apply ranWith_LocationDeps.
    + now left.
  - cbn [fst snd rerouteTimeout rerouteDeps locationDeps lastProcessedLocationRef].
    repeat split.
    unfold watchLocation. destruct (position w) as [loc|]; [|now left].
    cbn [snd fst].
    destruct (sameLocation (lastProcessedLocationRef v) loc) eqn:Hsame; [now left|].
    right. exists loc. repeat split. exact Hsame.
Qed.

(** One render of a mounted, active view, by what the location effect did. *)
Lemma render_mounted (M : JS.MathLib) (w : World) (v : View) :
  view w = Some v -> is_active w = true ->
  exists v',
    render M w
    = {| provider := fst (locationEffect M w (rerouteEffect w v));
         position := position w; positionGen := positionGen w;
         routeGen := routeGen w; destinationGen := destinationGen w;
         view := Some v'; nextViewId := nextViewId w; pending := pending w;
         clock := clock w; routingCalls := routingCalls w;
         NEXT_PUBLIC_MAPBOX_TOKEN := NEXT_PUBLIC_MAPBOX_TOKEN w |} /\
    v' = snd (locationEffect M w (rerouteEffect w v)) /\
    rerouteDeps v' = Some (rerouteDepsOf w) /\
    locationDeps v' = Some (locationDepsOf w).
Proof.
  intros Hv Ha. unfold render. rewrite Hv, Ha. unfold runEffects.
  eexists. split; [reflexivity|]. split; [reflexivity|].
  destruct (locationEffect_cases M w (rerouteEffect w v)) as (_ & H2 & H3 & _).
  destruct (rerouteEffect_frame w v) as (_ & _ & _ & _ & G5).
  split; [congruence | exact H3].
Qed.

(** X1. After a new position, two renders settle the view, whatever the
    sample is, provided its timestamp and coordinates are numbers: the step
    index has moved up by one at most and no routing call was made. *)
Lemma sample_settles_in_two_renders (M : JS.MathLib) (w : World) (loc : LocationPoint) :
  stableb w = true ->
  (timestamp loc =? timestamp loc) = true ->
  (latitude loc =? latitude loc) = true ->
  (longitude loc =? longitude loc) = true ->
  let w' := run M w [SetPosition loc; Render; Render] in
  stableb w' = true /\
  (currentStepIndex (nav w') <= S (currentStepIndex (nav w)))%nat /\
  routingCalls w' = routingCalls w.
Proof.
  intros Hs Ht Hlat Hlon. cbv zeta. unfold run. cbn [fold_left].
  assert (H1 : step M w (SetPosition loc) = handle w (SetPosition loc))
    by (unfold step; now rewrite Hs).
  rewrite H1. cbn [handle step].
  set (w1 := {| provider := provider w; position := Some loc |}).
  assert (Hself : sameLocation (Some loc) loc = true)
    by (unfold sameLocation; now rewrite Ht, Hlat, Hlon).
  destruct (view w) as [v|] eqn:Hv.
  2:{ (* no view is mounted *)
      assert (Hw1 : stableb w1 = true).
      { unfold stableb in *. cbn [view w1]. now rewrite Hv in *. }
      rewrite !render_stable by (try rewrite render_stable; assumption).
      split; [exact Hw1|]. split; [change (nav w1) with (nav w); lia | reflexivity]. }
  destruct (stableb_view w v Hs Hv) as (Hact & _ & _).
  destruct (render_mounted M w1 v eq_refl Hact) as (v1 & Hr1 & Hv1 & Hrd1 & Hld1).
  destruct (locationEffect_cases M w1 (rerouteEffect w1 v)) as (_ & _ & _ & Hcase).
  rewrite Hr1. rewrite <- Hv1 in Hcase.
  remember (fst (locationEffect M w1 (rerouteEffect w1 v))) as p1 eqn:Hp1.
  clear Hr1 Hv1 Hp1.
  set (r1 := {| provider := p1; position := position w1 |}).
  assert (Hidx : (currentStepIndex (navigationState p1)
                  <= S (currentStepIndex (nav w)))%nat).
  { destruct Hcase as [[Hp _] | (loc' & _ & _ & Hp & _)]; rewrite Hp.
    - change (provider w1) with (provider w). unfold nav. lia.
    - apply processLocationUpdate_index_bound. }
  destruct (is_active r1) eqn:Hact1.
  - (* still active: the second render leaves the provider alone *)
    destruct (render_mounted M r1 v1 eq_refl Hact1) as (v2 & Hr2 & Hv2 & Hrd2 & Hld2).
    assert (Hp2 : fst (locationEffect M r1 (rerouteEffect r1 v1)) = p1).
    { destruct (rerouteEffect_frame r1 v1) as (_ & G2 & _ & G4 & _).
      destruct Hcase as [[Hp _] | (loc' & Hpos & _ & _ & Hl)].
      - (* nothing was processed: the location effect is up to date *)
        unfold locationEffect. rewrite G4, Hld1.
        replace (locationDepsOf r1) with (locationDepsOf w1)
          by (unfold locationDepsOf, nav; cbn; now rewrite Hp).
        cbn [ranWith]. now rewrite LocationDeps_eqb_refl.
      - (* the sample was processed: the guard stops it *)
        cbn in Hpos. injection Hpos as <-.
        destruct (locationEffect_cases M r1 (rerouteEffect r1 v1))
          as (_ & _ & _ & [[Hp _] | (loc'' & Hpos2 & Hsame & _ & _)]);
          [exact Hp|].
        exfalso. cbn in Hpos2. injection Hpos2 as <-.
        rewrite G2, Hl in Hsame. congruence. }
    rewrite Hr2, Hp2.
    split; [|split; [exact Hidx | reflexivity]].
    eapply stableb_intro; [reflexivity | | |].
    + exact Hact1.
    + rewrite Hrd2. reflexivity.
    + rewrite Hld2. reflexivity.
  - (* the sample ended the navigation: the second render unmounts the view *)
    unfold render. cbn [view r1]. rewrite Hact1.
    split; [|split; [exact Hidx | reflexivity]].
    unfold stableb. cbn [view set_view].
    change (is_active (set_view None r1)) with (is_active r1). now rewrite Hact1.
Qed.

(** ** Requests and the in-flight ref *)

Lemma ownPending_app (id : nat) (l1 l2 : list PendingReroute) :
  ownPending id (l1 ++ l2) = ownPending id l1 ++ ownPending id l2.
Proof. unfold ownPending. apply filter_app. Qed.

Lemma ownPending_nil_iff (id : nat) (l : list PendingReroute) :
  List.length (ownPending id l) = 0%nat <->
  forall rq, In rq l -> caller rq <> id.
Proof.
  unfold ownPending. split.
  - intros Hlen rq Hin Heq.
    assert (Hf : In rq (filter (fun rq => Nat.eqb (caller rq) id) l)).
    { apply filter_In. split; [exact Hin|]. now apply Nat.eqb_eq. }
    destruct (filter _ l); [contradiction | discriminate].
  - intros Hall. induction l as [|a l IH]; [reflexivity|].
    cbn. destruct (Nat.eqb (caller a) id) eqn:He.
    + apply Nat.eqb_eq in He. exfalso. apply (Hall a); [now left | exact He].
    + apply IH. intros rq Hin. apply Hall. now right.
Qed.

Lemma remove_nth_In {A : Type} (k : nat) (l : list A) (x : A) :
  In x (remove_nth k l) -> In x l.
Proof.
  revert k. induction l as [|a l IH]; intros k H.
  - destruct k; exact H.
  - destruct k; cbn in H.
    + now right.
    + destruct H as [-> | H]; [now left | right; eauto].
Qed.

Lemma ownPending_remove_nth (id k : nat) (l : list PendingReroute) (rq : PendingReroute) :
  nth_error l k = Some rq ->
  List.length (ownPending id l)
  = (List.length (ownPending id (remove_nth k l))
     + if Nat.eqb (caller rq) id then 1 else 0)%nat.
Proof.
  unfold ownPending.
  revert k. induction l as [|a l IH]; intros k H.
  - destruct k; discriminate.
  - destruct k; cbn [nth_error] in H.
    + injection H as ->. cbn [remove_nth filter].
      destruct (Nat.eqb (caller rq) id); cbn [List.length]; lia.
    + cbn [remove_nth filter]. specialize (IH k H).
      destruct (Nat.eqb (caller a) id); cbn [List.length]; lia.
Qed.

Lemma refInv_initial (t0 : Z) (env : option string) : refInv (initialWorld t0 env).
Proof. split; [intros rq [] | intros v H; discriminate]. Qed.

Lemma refInv_render (M : JS.MathLib) (w : World) : refInv w -> refInv (render M w).
Proof.
  intros [Hp Hv]. unfold render.
  destruct (view w) as [v|] eqn:Hview; destruct (is_active w).
  - destruct (runEffects_frame M w v) as (_ & _ & _ & _ & H5 & H6 & _).
    destruct (runEffects_view M w v) as (v' & E1 & E2 & E3 & _).
    destruct (Hv v eq_refl) as [Hid Hcount].
    split.
    + intros rq. rewrite H5, H6. apply Hp.
    + intros v1 Hv1. rewrite E1 in Hv1. injection Hv1 as <-.
      rewrite H5, H6, E2, E3. now split.
  - split; [exact Hp|]. intros v1 Hv1. discriminate.
  - match goal with |- refInv (runEffects M ?w1 ?v1) =>
      set (wm := w1); set (vm := v1)
    end.
    destruct (runEffects_frame M wm vm) as (_ & _ & _ & _ & H5 & H6 & _).
    destruct (runEffects_view M wm vm) as (v' & E1 & E2 & E3 & _).
    split.
    + intros rq. rewrite H5, H6. unfold wm. cbn [pending nextViewId].
      intros Hin. specialize (Hp rq Hin). lia.
    + intros v1 Hv1. rewrite E1 in Hv1. injection Hv1 as <-.
      rewrite H5, H6, E2, E3. unfold wm, vm. cbn [pending nextViewId freshView viewId isReroutingRef].
      split; [lia|].
      apply ownPending_nil_iff. intros rq Hin. specialize (Hp rq Hin). lia.
  - split; [exact Hp|]. intros v1 Hv1. rewrite Hview in Hv1. discriminate.
Qed.

(** What [timerFire] does, by cases: nothing; the timeout is consumed without
    a call; or a call is made by a view that had none in flight. *)
Lemma timerFire_cases (w : World) :
  timerFire w = w \/
  (exists v tm,
     view w = Some v /\ rerouteTimeout v = Some tm /\ (deadline tm <= clock w)%Z /\
     ((view (timerFire w) = Some (set_rerouteTimeout None v) /\
       pending (timerFire w) = pending w /\
       routingCalls (timerFire w) = routingCalls w /\
       nextViewId (timerFire w) = nextViewId w) \/
      (isReroutingRef v = false /\
       view (timerFire w) = Some (set_isReroutingRef true (set_rerouteTimeout None v)) /\
       (exists rq, pending (timerFire w) = pending w ++ [rq] /\ caller rq = viewId v) /\
       routingCalls (timerFire w) = S (routingCalls w) /\
       nextViewId (timerFire w) = nextViewId w))).
Proof.
  unfold timerFire.
  destruct (view w) as [v|] eqn:Hv; [|now left].
  destruct (rerouteTimeout v) as [tm|] eqn:Htm; [|now left].
  destruct (deadline tm <=? clock w)%Z eqn:Hd; [|now left].
  apply Z.leb_le in Hd.
  right. exists v, tm. split; [reflexivity|]. split; [exact Htm|]. split; [exact Hd|].
  unfold handleReroute.
  destruct (timerDestination tm) as [dest|]; [|left; repeat split].
  cbn [isReroutingRef set_rerouteTimeout].
  destruct (isReroutingRef v) eqn:Hr; [left; repeat split|].
  destruct (String.eqb _ ""); [left; repeat split|].
  right. split; [reflexivity|]. split; [reflexivity|].
  split; [|split; reflexivity].
  eexists. split; reflexivity.
Qed.

Lemma resolve_cases (k : nat) (newRoute : option NavigationRoute.t) (w : World) :
  resolve k newRoute w = w \/
  (exists rq, nth_error (pending w) k = Some rq /\
     pending (resolve k newRoute w) = remove_nth k (pending w) /\
     routingCalls (resolve k newRoute w) = routingCalls w /\
     nextViewId (resolve k newRoute w) = nextViewId w /\
     view (resolve k newRoute w)
     = match view w with
       | Some v =>
           if Nat.eqb (viewId v) (caller rq)
           then Some (set_isReroutingRef false v) else Some v
       | None => None
       end).
Proof.
  unfold resolve. destruct (nth_error (pending w) k) as [rq|] eqn:Hk; [|now left].
  right. exists rq. repeat split.
Qed.

Lemma refInv_handle (w : World) (e : Event) : refInv w -> refInv (handle w e).
Proof.
  intros [Hp Hv]. destruct e; cbn [handle]; try (split; assumption).
  - (* TimerFire *)
    destruct (timerFire_cases w) as [-> | (v & tm & Hview & Htm & Hd & [C | C])];
      [split; assumption| |].
    + destruct C as (C1 & C2 & C3 & C4). destruct (Hv v Hview) as [Hid Hc].
      split.
      * intros rq. rewrite C2, C4. apply Hp.
      * intros v1 Hv1. rewrite C1 in Hv1. injection Hv1 as <-.
        rewrite C2, C4. cbn. now split.
    + destruct C as (Hr & C1 & (rq & C2 & Hcaller) & C3 & C4).
      destruct (Hv v Hview) as [Hid Hc]. rewrite Hr in Hc.
      split.
      * intros rq'. rewrite C2, C4. intros Hin. apply in_app_or in Hin.
        destruct Hin as [Hin | [<- | []]]; [now apply Hp | lia].
      * intros v1 Hv1. rewrite C1 in Hv1. injection Hv1 as <-.
        rewrite C2, C4. cbn [viewId isReroutingRef set_isReroutingRef set_rerouteTimeout].
        split; [exact Hid|].
        rewrite ownPending_app, length_app, Hc.
        unfold ownPending. cbn [filter].
        replace (Nat.eqb (caller rq) (viewId v)) with true
          by (symmetry; now apply Nat.eqb_eq).
        reflexivity.
  - (* Resolve *)
    destruct (resolve_cases k newRoute w) as [-> | (rq & Hk & C1 & _ & C3 & C4)];
      [split; assumption|].
    split.
    + intros rq'. rewrite C1, C3. intros Hin. apply Hp. eapply remove_nth_In; eauto.
    + intros v1 Hv1. rewrite C4 in Hv1.
      destruct (view w) as [v|] eqn:Hview; [|discriminate].
      destruct (Hv v eq_refl) as [Hid Hc].
      rewrite C1, C3.
      pose proof (ownPending_remove_nth (viewId v) k (pending w) rq Hk) as Hrem.
      destruct (Nat.eqb (viewId v) (caller rq)) eqn:He; injection Hv1 as <-.
      * cbn [viewId isReroutingRef set_isReroutingRef]. split; [exact Hid|].
        apply Nat.eqb_eq in He.
        replace (Nat.eqb (caller rq) (viewId v)) with true in Hrem
          by (symmetry; apply Nat.eqb_eq; congruence).
        destruct (isReroutingRef v); lia.
      * split; [exact Hid|].
        replace (Nat.eqb (caller rq) (viewId v)) with false in Hrem
          by (symmetry; apply Nat.eqb_neq; apply Nat.eqb_neq in He; congruence).
        lia.
Qed.

Lemma refInv_step (M : JS.MathLib) (w : World) (e : Event) :
  refInv w -> refInv (step M w e).
Proof.
  intros H. unfold step.
  destruct e; try (destruct (stableb w); [now apply refInv_handle | exact H]).
  now apply refInv_render.
Qed.

Lemma run_snoc (M : JS.MathLib) (w : World) (evs : list Event) (e : Event) :
  run M w (evs ++ [e]) = step M (run M w evs) e.
Proof. unfold run. now rewrite fold_left_app. Qed.

Lemma refInv_run (M : JS.MathLib) (t0 : Z) (env : option string) (evs : list Event) :
  refInv (run M (initialWorld t0 env) evs).
Proof.
  induction evs as [|e evs IH] using rev_ind.
  - apply refInv_initial.
  - rewrite run_snoc. now apply refInv_step.
Qed.


(** ** The debounce *)

Lemma rerouteDepsOf_isOffRoute (w w' : World) :
  rerouteDepsOf w = rerouteDepsOf w' -> isOffRoute (nav w') = isOffRoute (nav w).
Proof. unfold rerouteDepsOf. intros H. now injection H. Qed.

(** An event handler leaves the pending timeout and the record of the
    reroute effect's dependencies alone, unless it consumes the timeout. *)
Lemma handle_view (w : World) (e : Event) (v' : View) (tm : Timer) :
  view (handle w e) = Some v' -> rerouteTimeout v' = Some tm ->
  exists v, view w = Some v /\ rerouteTimeout v = Some tm /\
    rerouteDeps v' = rerouteDeps v.
Proof.
  destruct e; cbn [handle]; try (intros Hv Htm; exists v'; now repeat split).
  - (* TimerFire *)
    destruct (timerFire_cases w) as [-> | (v & tm0 & Hview & Htm0 & Hd & [C | C])].
    + intros Hv Htm. exists v'. now repeat split.
    + destruct C as (C1 & _). rewrite C1. intros Hv Htm. injection Hv as <-.
      discriminate.
    + destruct C as (_ & C1 & _). rewrite C1. intros Hv Htm. injection Hv as <-.
      discriminate.
  - (* Resolve *)
    destruct (resolve_cases k newRoute w) as [-> | (rq & _ & _ & _ & _ & C4)].
    + intros Hv Htm. exists v'. now repeat split.
    + rewrite C4. destruct (view w) as [v|]; [|discriminate].
      destruct (Nat.eqb (viewId v) (caller rq)); intros Hv Htm; injection Hv as <-;
        exists v; now repeat split.
Qed.

Lemma handle_clock (w : World) (e : Event) : (clock w <= clock (handle w e))%Z.
Proof.
  destruct e; cbn [handle]; try (cbn; lia).
  - destruct (timerFire_cases w) as [-> | (v & tm & _ & _ & _ & _)]; [lia|].
    unfold timerFire, handleReroute.
    repeat match goal with
           | |- context [match ?x with _ => _ end] => destruct x
           end; cbn; lia.
  - unfold resolve. destruct (nth_error (pending w) k); cbn; lia.
Qed.

(** The timeout pending after a step, if the reroute effect is up to date:
    it was pending and up to date before, with the same off-route flag, or
    it was armed by this step, off route, 3000 ms before its deadline. *)
Lemma timer_step (M : JS.MathLib) (w : World) (e : Event) (v' : View) (tm : Timer) :
  view (step M w e) = Some v' ->
  rerouteTimeout v' = Some tm ->
  rerouteDeps v' = Some (rerouteDepsOf (step M w e)) ->
  (exists v, view w = Some v /\ rerouteTimeout v = Some tm /\
     rerouteDeps v = Some (rerouteDepsOf w) /\
     isOffRoute (nav (step M w e)) = isOffRoute (nav w) /\
     (clock w <= clock (step M w e))%Z) \/
  (deadline tm = (clock (step M w e) + 3000)%Z /\
   isOffRoute (nav (step M w e)) = true).
Proof.
  assert (Hkeep : view w = Some v' -> rerouteTimeout v' = Some tm ->
            rerouteDeps v' = Some (rerouteDepsOf w) ->
            exists v, view w = Some v /\ rerouteTimeout v = Some tm /\
              rerouteDeps v = Some (rerouteDepsOf w) /\
              isOffRoute (nav w) = isOffRoute (nav w) /\ (clock w <= clock w)%Z).
  { intros Hv Htm Hd. exists v'. repeat split; try assumption. lia. }
  assert (Hhandle : forall e0, stableb w = true ->
            view (handle w e0) = Some v' -> rerouteTimeout v' = Some tm ->
            rerouteDeps v' = Some (rerouteDepsOf (handle w e0)) ->
            exists v, view w = Some v /\ rerouteTimeout v = Some tm /\
              rerouteDeps v = Some (rerouteDepsOf w) /\
              isOffRoute (nav (handle w e0)) = isOffRoute (nav w) /\
              (clock w <= clock (handle w e0))%Z).
  { intros e0 Hs Hv Htm Hd.
    destruct (handle_view w e0 v' tm Hv Htm) as (v & Hview & Htm0 & Hdeps).
    destruct (stableb_view w v Hs Hview) as (_ & Hrd & _).
    exists v. repeat split; try assumption.
    - apply rerouteDepsOf_isOffRoute. congruence.
    - apply handle_clock. }
  unfold step.
  destruct e;
    try (destruct (stableb w) eqn:Hs;
         [intros Hv Htm Hd; left; now apply Hhandle
         |intros Hv Htm Hd; left; now apply Hkeep]).
  (* Render *)
  unfold render.
  destruct (view w) as [v|] eqn:Hview; destruct (is_active w).
  - intros Hv Htm Hd.
    destruct (runEffects_view M w v) as (v1 & E1 & _ & _ & E4 & E5).
    destruct (runEffects_frame M w v) as (_ & _ & _ & _ & _ & _ & F7 & _).
    rewrite E1 in Hv. injection Hv as ->.
    rewrite E4 in Htm.
    assert (Hflag : isOffRoute (nav (runEffects M w v)) = isOffRoute (nav w))
      by (apply rerouteDepsOf_isOffRoute; congruence).
    destruct (rerouteEffect_timer w v tm Htm) as [[K1 K2] | (K1 & K2 & _)].
    + left. exists v. repeat split; try assumption. lia.
    + right. split; [lia | congruence].
  - intros Hv. discriminate.
  - match goal with |- context [runEffects M ?w1 ?v1] =>
      set (wm := w1); set (vm := v1)
    end.
    intros Hv Htm Hd.
    destruct (runEffects_view M wm vm) as (v1 & E1 & _ & _ & E4 & E5).
    destruct (runEffects_frame M wm vm) as (_ & _ & _ & _ & _ & _ & F7 & _).
    rewrite E1 in Hv. injection Hv as ->.
    rewrite E4 in Htm.
    assert (Hflag : isOffRoute (nav (runEffects M wm vm)) = isOffRoute (nav wm))
      by (apply rerouteDepsOf_isOffRoute; congruence).
    destruct (rerouteEffect_timer wm vm tm Htm) as [[K1 K2] | (K1 & K2 & _)].
    + discriminate.
    + right. split; [lia | congruence].
  - intros Hv. rewrite Hview in Hv. discriminate.
Qed.

Lemma app_snoc_split {A : Type} (pre post l : list A) (e : A) :
  l ++ [e] = pre ++ post ->
  (post = [] /\ pre = l ++ [e]) \/
  (exists post', post = post' ++ [e] /\ l = pre ++ post').
Proof.
  intros H. destruct post as [|x post] using rev_ind.
  - left. split; [reflexivity|]. now rewrite app_nil_r in H.
  - right. exists post. rewrite app_assoc in H.
    apply app_inj_tail in H. destruct H as [H1 H2]. subst. now split.
Qed.

Lemma offRouteSince_flag (M : JS.MathLib) (w0 : World) (evs : list Event) (t : Z) :
  offRouteSince M w0 evs t -> isOffRoute (nav (run M w0 evs)) = true.
Proof.
  intros (evs1 & evs2 & -> & _ & H). apply (H evs2 []). now rewrite app_nil_r.
Qed.

Lemma offRouteSince_now (M : JS.MathLib) (w0 : World) (evs : list Event) (t : Z) :
  isOffRoute (nav (run M w0 evs)) = true -> (clock (run M w0 evs) <= t)%Z ->
  offRouteSince M w0 evs t.
Proof.
  intros Hflag Hclock. exists evs, []. split; [now rewrite app_nil_r|].
  split; [exact Hclock|].
  intros pre post H. symmetry in H. apply app_eq_nil in H. destruct H as [-> _].
  now rewrite app_nil_r.
Qed.

Lemma offRouteSince_snoc (M : JS.MathLib) (w0 : World) (evs : list Event) (e : Event)
    (t : Z) :
  offRouteSince M w0 evs t ->
  isOffRoute (nav (run M w0 (evs ++ [e]))) = true ->
  offRouteSince M w0 (evs ++ [e]) t.
Proof.
  intros (evs1 & evs2 & -> & Hclock & H) Hflag.
  exists evs1, (evs2 ++ [e]). split; [now rewrite app_assoc|].
  split; [exact Hclock|].
  intros pre post Hsplit.
  destruct (app_snoc_split pre post evs2 e Hsplit) as [[-> ->] | (post' & -> & ->)].
  - now rewrite app_assoc.
  - now apply (H pre post').
Qed.


Lemma timerInv_run (M : JS.MathLib) (t0 : Z) (env : option string) (evs : list Event) :
  timerInv M (initialWorld t0 env) evs.
Proof.
  induction evs as [|e evs IH] using rev_ind; intros v' tm Hv Htm Hd.
  - discriminate.
  - rewrite run_snoc in Hv, Hd.
    destruct (timer_step M _ e v' tm Hv Htm Hd)
      as [(v & Hview & Htm0 & Hrd & Hflag & _) | (K1 & K2)].
    + pose proof (IH v tm Hview Htm0 Hrd) as Hsince.
      apply offRouteSince_snoc; [exact Hsince|].
      rewrite run_snoc, Hflag. now apply offRouteSince_flag in Hsince.
    + apply offRouteSince_now; rewrite run_snoc; [exact K2 | lia].
Qed.

Lemma ownRequestPending_ref (w : World) :
  refInv w ->
  (ownRequestPending w <->
   exists v, view w = Some v /\ isReroutingRef v = true).
Proof.
  intros [_ Hv]. split.
  - intros (v & rq & Hview & Hin & Hc). exists v. split; [exact Hview|].
    destruct (Hv v Hview) as [_ Hcount].
    destruct (isReroutingRef v); [reflexivity|].
    exfalso. apply (proj1 (ownPending_nil_iff (viewId v) (pending w)) Hcount rq Hin Hc).
  - intros (v & Hview & Href).
    destruct (Hv v Hview) as [_ Hcount]. rewrite Href in Hcount.
    unfold ownPending in Hcount.
    destruct (filter (fun rq => Nat.eqb (caller rq) (viewId v)) (pending w))
      as [|rq l] eqn:Hf; [discriminate|].
    assert (Hin : In rq (filter (fun rq => Nat.eqb (caller rq) (viewId v)) (pending w)))
      by (rewrite Hf; now left).
    apply filter_In in Hin. destruct Hin as [Hin He].
    exists v, rq. split; [exact Hview|]. split; [exact Hin | now apply Nat.eqb_eq].
Qed.




(** ** The end of a session *)

(** C4, as the code has it. Leaving active mode unmounts the view at the
    next render, and with it any pending timeout: after the user ends the
    navigation nothing is left to fire. A request still in flight is not
    cancelled: when it resolves with a route, [updateRoute] and
    [setRerouting(false)] run on the idle state, which then holds that
    route (mode idle, no destination); when it resolves without a route the
    state stays the initial one. *)
Theorem session_end_keeps_requests (M : JS.MathLib) (w : World) :
  (is_active w = false ->
     view (render M w) = None /\ provider (render M w) = provider w) /\
  (stableb w = true ->
   let w1 := run M w [EndNavigation; Render] in
   view w1 = None /\
   nav w1 = initialNavigationState /\
   stableb w1 = true /\
   step M w1 TimerFire = w1 /\
   pending w1 = pending w /\
   forall k rq, nth_error (pending w) k = Some rq ->
     nav (step M w1 (Resolve k None)) = initialNavigationState /\
     forall r,
       nav (step M w1 (Resolve k (Some r)))
       = {| mode := idle;
            route := Some r;
            destination := None;
            origin := None;
            currentStepIndex := 0;
            distanceToNextManeuver := JS.opt_or (stepDistanceAt r 0) 0;
            isOffRoute := false;
            isRerouting := false;
            eta := Some (calculateETA (Date_now (clock w)) (NavigationRoute.duration r));
            remainingDistance := NavigationRoute.distance r;
            remainingDuration := NavigationRoute.duration r |}).
Proof.
  split.
  - intros Hact. unfold render. rewrite Hact.
    destruct (view w) eqn:Hv; split; try reflexivity. exact Hv.
  - intros Hs. cbv zeta. unfold run. cbn [fold_left].
    assert (H1 : step M w EndNavigation = handle w EndNavigation)
      by (unfold step; now rewrite Hs).
    rewrite H1. cbn [handle].
    set (we := new_objects true true (set_provider (endNavigation (provider w)) w)).
    assert (Hrender : exists w1, step M we Render = w1 /\
              view w1 = None /\ provider w1 = endNavigation (provider w) /\
              pending w1 = pending w /\ clock w1 = clock w).
    { eexists. split; [reflexivity|]. cbn [step]. unfold render.
      replace (is_active we) with false by reflexivity.
      destruct (view we) eqn:Hvw; repeat split; exact Hvw. }
    destruct Hrender as (w1 & -> & Hv1 & Hp1 & Hpend1 & Hclock1).
    assert (Hs1 : stableb w1 = true).
    { unfold stableb. rewrite Hv1. unfold is_active, nav. now rewrite Hp1. }
    split; [exact Hv1|]. split; [unfold nav; now rewrite Hp1|].
    split; [exact Hs1|]. split.
    { unfold step. rewrite Hs1. cbn [handle]. unfold timerFire. now rewrite Hv1. }
    split; [exact Hpend1|].
    intros k rq Hk.
    assert (Hres : forall res, nav (step M w1 (Resolve k res))
              = navigationState
                  (setRerouting false
                     match res with
                     | Some r => updateRoute (Date_now (clock w)) r (endNavigation (provider w))
                     | None => endNavigation (provider w)
                     end)).
    { intros res. unfold step. rewrite Hs1. cbn [handle]. unfold resolve.
      rewrite Hpend1, Hk. unfold nav. cbn [provider]. now rewrite Hp1, Hclock1. }
    split.
    + rewrite Hres. reflexivity.
    + intros r. rewrite Hres. reflexivity.
Qed.

Lemma session_end_keeps_requests_witness :
  let w := run Scenario.M Scenario.w0 Scenario.rerouteTrace in
  let w1 := run Scenario.M w [EndNavigation; Render] in
  view w1 = None /\ nav w1 = initialNavigationState /\
  route (nav (step Scenario.M w1 (Resolve 0 (Some Scenario.R')))) = Some Scenario.R'.
Proof.
  cbv zeta.
  destruct (proj2 (session_end_keeps_requests Scenario.M
                     (run Scenario.M Scenario.w0 Scenario.rerouteTrace)))
    as (H1 & H2 & _ & _ & _ & H6).
  - vm_compute. reflexivity.
  - split; [exact H1|]. split; [exact H2|].
    destruct (H6 0%nat
                {| request :=
                     {| RouteRequest.origin := (0.001, 0.003);
                        RouteRequest.destination := (0, 0.01) |};
                   caller := 0 |}) as [_ Hr].
    + vm_compute. reflexivity.
    + rewrite (Hr Scenario.R'). reflexivity.
Defined.

(** C4 fails as stated: the response that arrives after the user ended the
    session is applied. The idle state, which had no route, holds the new
    route afterwards. *)
Lemma late_response_is_applied :
  let ended := run Scenario.M Scenario.w0 (Scenario.rerouteTrace ++ [EndNavigation; Render]) in
  let w := run Scenario.M Scenario.w0 Scenario.lateResponseTrace in
  nav ended = initialNavigationState /\
  view ended = None /\
  map caller (pending ended) = [0%nat] /\
  mode (nav w) = idle /\
  route (nav w) = Some Scenario.R' /\
  remainingDistance (nav w) = 700.
Proof. vm_compute. repeat split. Qed.

(** * Further properties *)

(** ** More facts about binary64 numbers *)

(** [x] is neither NaN nor an infinity: its specification is a zero or a
    finite number. *)
Lemma is_finite_cases (x : float) :
  is_finite x = true ->
  (exists s, Prim2SF x = S754_zero s) \/ (exists s m e, Prim2SF x = S754_finite s m e).
Proof.
  unfold is_finite, is_nan, is_infinity.
  rewrite !FloatAxioms.eqb_spec, abs_spec.
  destruct (Prim2SF x) as [s|s| |s m e]; intros Hf.
  - left. now exists s.
  - destruct s; cbn in Hf; discriminate.
  - cbn in Hf. discriminate.
  - right. now exists s, m, e.
Qed.

Lemma sub_self_finite (x : float) : is_finite x = true -> x - x = 0.
Proof.
  intros Hf. rewrite <- (SF2Prim_Prim2SF (x - x)). rewrite sub_spec.
  destruct (is_finite_cases x Hf) as [[s ->] | (s & m & e & ->)].
  - destruct s; reflexivity.
  - unfold SF64sub, SFsub. cbv zeta. rewrite Z.sub_diag. reflexivity.
Qed.

Lemma mul_zero_finite (u : float) :
  is_finite u = true -> u * 0 = 0 \/ u * 0 = (-0)%float.
Proof.
  intros Hf. rewrite <- (SF2Prim_Prim2SF (u * 0)). rewrite mul_spec.
  change (Prim2SF 0) with (S754_zero false).
  destruct (is_finite_cases u Hf) as [[s ->] | (s & m & e & ->)];
    destruct s; ((left; reflexivity) || (right; reflexivity)).
Qed.

Lemma ltb_zero_asym (x : float) : (0 <? x) = true -> (x <? 0) = false.
Proof.
  rewrite !ltb_spec. change (Prim2SF 0) with (S754_zero false).
  destruct (Prim2SF x) as [s|s| |s m e]; cbn; try discriminate; try reflexivity;
    destruct s; cbn; try discriminate; reflexivity.
Qed.

Lemma Math_max_zero_not_negative (x : float) : (JS.Math_max [0; x] <? 0) = false.
Proof.
  unfold JS.Math_max. cbn [existsb].
  replace (is_nan 0) with false by reflexivity. cbn [orb]. rewrite orb_false_r.
  destruct (is_nan x) eqn:Hn; [reflexivity|].
  cbn [fold_left].
  replace (JS.max_step neg_infinity 0) with 0%float by reflexivity.
  unfold JS.max_step.
  replace (JS.is_neg_zero 0) with false by reflexivity. rewrite andb_false_r.
  destruct (0 <? x) eqn:Hlt.
  - now apply ltb_zero_asym.
  - reflexivity.
Qed.

(** ** Progress *)

(** X8. For every step index that is a non-negative integer, in or out of
    the route's range, and whatever the sample and the route's numbers,
    [updateNavigationProgress] never leaves a negative remaining distance
    or duration: [Math.max(0, ...)] clamps both (a NaN stays a NaN, which
    is not below zero either). Negative and fractional indices, on which
    the source throws, are outside this statement. *)
Theorem remaining_never_negative (now : float) (c : Coord) (d : float) (i : nat)
    (p : Provider) (r : NavigationRoute.t) :
  route (navigationState p) = Some r ->
  let s' := navigationState (updateNavigationProgress now c d i p) in
  (remainingDistance s' <? 0) = false /\ (remainingDuration s' <? 0) = false.
Proof.
  intros Hr. cbn. rewrite Hr. cbn.
  split; apply Math_max_zero_not_negative.
Qed.

Lemma remaining_never_negative_witness :
  let s' := navigationState
              (updateNavigationProgress 0 (0, 0.002) (-250) 0
                 (Scenario.started 0 Scenario.straight)) in
  (remainingDistance s' <? 0) = false /\ (remainingDuration s' <? 0) = false.
Proof.
  apply (remaining_never_negative 0 (0, 0.002) (-250) 0
           (Scenario.started 0 Scenario.straight) (Scenario.R Scenario.straight)).
  reflexivity.
Defined.



(** ** The distance to the route is the distance to a vertex *)

Lemma fold_min_step_In (l : list float) (init : float) :
  In (fold_left JS.min_step l init) (init :: l).
Proof.
  revert init. induction l as [|a l IH]; intros init; cbn [fold_left].
  - now left.
  - destruct (IH (JS.min_step init a)) as [H | H].
    + destruct (min_step_cases init a) as [E | E]; rewrite E in *.
      * left. exact H.
      * right. left. exact H.
    + right. right. exact H.
Qed.

Lemma distanceToRouteSegment_min (M : JS.MathLib) (point : Coord) (polyline : list Coord) :
  (2 <= List.length polyline)%nat ->
  distanceToRouteSegment M point polyline
  = JS.Math_min (map (calculateDistanceBetweenPoints M point) polyline).
Proof.
  intros Hlen. unfold distanceToRouteSegment.
  destruct polyline as [|a [|b rest]]; cbn [List.length] in Hlen; try lia.
  cbn [List.length Nat.ltb Nat.leb]. rewrite segmentLoop_next. cbn [map].
  rewrite Math_min_first_pair.
  rewrite (segmentLoop_min M point rest [_] b).
  now rewrite <- app_assoc.
Qed.

(** X9. On a polyline of two or more points, [distanceToRouteSegment] is
    NaN when the distance to some vertex is NaN, and otherwise it is the
    distance from the point to one of the polyline's vertices: the value
    compared with the off-route threshold is always a vertex distance. *)
Theorem distanceToRouteSegment_attained (M : JS.MathLib) (point : Coord)
    (polyline : list Coord) :
  (2 <= List.length polyline)%nat ->
  let ds := map (calculateDistanceBetweenPoints M point) polyline in
  (existsb is_nan ds = true -> is_nan (distanceToRouteSegment M point polyline) = true) /\
  (existsb is_nan ds = false ->
     exists vertex, In vertex polyline /\
       distanceToRouteSegment M point polyline
       = calculateDistanceBetweenPoints M point vertex).
Proof.
  intros Hlen. cbv zeta. rewrite (distanceToRouteSegment_min M point polyline Hlen).
  unfold JS.Math_min. split; intros Hnan; rewrite Hnan; [reflexivity|].
  destruct polyline as [|a rest]; [cbn in Hlen; lia|].
  cbn [map fold_left] in *.
  apply orb_false_iff in Hnan. destruct Hnan as [Ha Hrest].
  rewrite (min_step_infinity _ Ha).
  destruct (fold_min_step_In (map (calculateDistanceBetweenPoints M point) rest)
              (calculateDistanceBetweenPoints M point a)) as [H | H].
  - exists a. split; [now left | now symmetry].
  - apply in_map_iff in H. destruct H as (v & Hv & Hin).
    exists v. split; [now right | now symmetry].
Qed.

Lemma distanceToRouteSegment_attained_witness :
  exists vertex, In vertex [(0, 0); (0, 0.004); (0, 0.01)] /\
    distanceToRouteSegment Scenario.M (0.001, 0.003) [(0, 0); (0, 0.004); (0, 0.01)]
    = calculateDistanceBetweenPoints Scenario.M (0.001, 0.003) vertex.
Proof.
  apply (proj2 (distanceToRouteSegment_attained Scenario.M (0.001, 0.003)
                  [(0, 0); (0, 0.004); (0, 0.01)] ltac:(cbn; lia))).
  vm_compute. reflexivity.
Defined.

(** ** Distances between location points *)

(** X11. The haversine of [src/lib/location.ts] and the copy private to
    [ActiveNavigationView.tsx] compute the same number for the same two
    points, read as [[longitude, latitude]] pairs. *)
Theorem calculateDistance_agrees (M : JS.MathLib) (point1 point2 : LocationPoint) :
  calculateDistance M point1 point2
  = calculateDistanceBetweenPoints M (longitude point1, latitude point1)
      (longitude point2, latitude point2).
Proof. reflexivity. Qed.

Lemma haversine_same_point (M : JS.MathLib) (lon lat : float) :
  is_finite lat = true -> is_finite lon = true ->
  JS.Math_sin M 0 = 0 -> JS.Math_atan2 M 0 1 = 0 ->
  is_finite (JS.Math_cos M (lat * JS.Math_PI / 180)
             * JS.Math_cos M (lat * JS.Math_PI / 180)) = true ->
  calculateDistanceBetweenPoints M (lon, lat) (lon, lat) = 0.
Proof.
  intros Hlat Hlon Hsin Hatan Hcos.
  unfold calculateDistanceBetweenPoints. cbn [fst snd].
  rewrite (sub_self_finite lat Hlat), (sub_self_finite lon Hlon).
  replace (0 * JS.Math_PI / 180 / 2) with 0%float by reflexivity.
  rewrite Hsin.
  destruct (mul_zero_finite _ Hcos) as [-> | ->].
  - replace (0 * 0 + 0 * 0)%float with 0%float by reflexivity.
    replace (PrimFloat.sqrt 0) with 0%float by reflexivity.
    replace (PrimFloat.sqrt (1 - 0)) with 1%float by reflexivity.
    rewrite Hatan. reflexivity.
  - replace (0 * 0 + -0 * 0)%float with 0%float by reflexivity.
    replace (PrimFloat.sqrt 0) with 0%float by reflexivity.
    replace (PrimFloat.sqrt (1 - 0)) with 1%float by reflexivity.
    rewrite Hatan. reflexivity.
Qed.

(** X10. A location point with finite coordinates is at distance 0 from
    itself, and so has not moved under the default threshold of 10 m. This
    holds for every [Math] that returns [+0] for [sin(+0)] and for
    [atan2(+0, 1)], as ECMAScript requires, and whose cosine of the latitude
    has a finite square. *)
Theorem calculateDistance_same_point (M : JS.MathLib) (p : LocationPoint) :
  is_finite (latitude p) = true -> is_finite (longitude p) = true ->
  JS.Math_sin M 0 = 0 -> JS.Math_atan2 M 0 1 = 0 ->
  is_finite (JS.Math_cos M (latitude p * JS.Math_PI / 180)
             * JS.Math_cos M (latitude p * JS.Math_PI / 180)) = true ->
  calculateDistance M p p = 0 /\ hasMoved M (Some p) p 10 = false.
Proof.
  intros Hlat Hlon Hsin Hatan Hcos.
  assert (H : calculateDistance M p p = 0)
    by (now apply (haversine_same_point M (longitude p) (latitude p))).
  split; [exact H|]. unfold hasMoved. rewrite H. reflexivity.
Qed.

Lemma calculateDistance_same_point_witness :
  calculateDistance Scenario.M (Scenario.sample 106.7 10.78 1) (Scenario.sample 106.7 10.78 1) = 0
  /\ hasMoved Scenario.M (Some (Scenario.sample 106.7 10.78 1))
       (Scenario.sample 106.7 10.78 1) 10 = false.
Proof.
  apply (calculateDistance_same_point Scenario.M (Scenario.sample 106.7 10.78 1));
    vm_compute; reflexivity.
Defined.

Lemma totalDistanceLoop_snoc (M : JS.MathLib) (rest : list LocationPoint)
    (previous q p : LocationPoint) (acc : float) :
  totalDistanceLoop M previous ((rest ++ [q]) ++ [p]) acc
  = totalDistanceLoop M previous (rest ++ [q]) acc + calculateDistance M q p.
Proof.
  revert previous acc. induction rest as [|x rest IH]; intros previous acc.
  - reflexivity.
  - cbn [app totalDistanceLoop]. apply IH.
Qed.

(** X12. [calculateTotalDistance] is 0 on the empty list and on a single
    point, and recording one more point adds exactly the distance from the
    previous last point: the total of [l ++ [q; p]] is the total of
    [l ++ [q]] plus the distance from [q] to [p]. *)
Theorem calculateTotalDistance_append (M : JS.MathLib) (l : list LocationPoint)
    (q p : LocationPoint) :
  calculateTotalDistance M [] = 0 /\
  calculateTotalDistance M [q] = 0 /\
  calculateTotalDistance M ((l ++ [q]) ++ [p])
  = calculateTotalDistance M (l ++ [q]) + calculateDistance M q p.
Proof.
  split; [reflexivity|]. split; [reflexivity|].
  destruct l as [|a l].
  - reflexivity.
  - unfold calculateTotalDistance.
    assert (H1 : (List.length (((a :: l) ++ [q]) ++ [p]) <? 2)%nat = false).
    { apply Nat.ltb_ge. rewrite !length_app. cbn. lia. }
    assert (H2 : (List.length ((a :: l) ++ [q]) <? 2)%nat = false).
    { apply Nat.ltb_ge. rewrite !length_app. cbn. lia. }
    rewrite H1, H2. cbn [app]. apply totalDistanceLoop_snoc.
Qed.

(** ** Route helpers and the navigation hook *)

(** X13. [getCurrentInstruction] and [getRemainingRouteInfo] are safe at
    every integer index: without a route, below 0 or past the last step
    they return the empty string and zero distance and duration; inside the
    bounds the instruction is that of the indexed step. *)
Theorem route_lookups_are_safe (route : option NavigationRoute.t) (i : Z) :
  (route = None -> getCurrentInstruction route i = ""%string /\
     getRemainingRouteInfo route i
     = {| RemainingRouteInfo.distance := 0; RemainingRouteInfo.duration := 0 |}) /\
  (forall r, route = Some r ->
     ((i < 0)%Z -> getCurrentInstruction route i = ""%string /\
        getRemainingRouteInfo route i
        = {| RemainingRouteInfo.distance := 0; RemainingRouteInfo.duration := 0 |}) /\
     ((Z.of_nat (List.length (NavigationRoute.steps r)) <= i)%Z ->
        getCurrentInstruction route i = ""%string /\
        getRemainingRouteInfo route i
        = {| RemainingRouteInfo.distance := 0; RemainingRouteInfo.duration := 0 |}) /\
     ((0 <= i < Z.of_nat (List.length (NavigationRoute.steps r)))%Z ->
        exists st, nth_error (NavigationRoute.steps r) (Z.to_nat i) = Some st /\
          getCurrentInstruction route i = NavigationStep.instruction st)).
Proof.
  split.
  - intros ->. split; reflexivity.
  - intros r ->. split; [|split].
    + intros Hneg. unfold getCurrentInstruction, getRemainingRouteInfo.
      replace (i <? 0)%Z with true by (symmetry; now apply Z.ltb_lt).
      split; reflexivity.
    + intros Hge. unfold getCurrentInstruction, getRemainingRouteInfo.
      replace (i >=? Z.of_nat (List.length (NavigationRoute.steps r)))%Z with true
        by (symmetry; apply Z.geb_le; lia).
      rewrite orb_true_r.
      replace (i <? 0)%Z with false by (symmetry; apply Z.ltb_ge; lia).
      split; [reflexivity|].
      unfold remainingFrom. rewrite skipn_all2 by lia. reflexivity.
    + intros [H0 Hlt]. unfold getCurrentInstruction.
      replace (i <? 0)%Z with false by (symmetry; apply Z.ltb_ge; lia).
      replace (i >=? Z.of_nat (List.length (NavigationRoute.steps r)))%Z with false
        by (symmetry; rewrite Z.geb_leb; apply Z.leb_gt; lia).
      cbn [orb].
      destruct (nth_error (NavigationRoute.steps r) (Z.to_nat i)) as [st|] eqn:Hn.
      * exists st. split; reflexivity.
      * apply nth_error_None in Hn. lia.
Qed.

Lemma route_lookups_are_safe_witness :
  getCurrentInstruction None 3 = ""%string /\
  getRemainingRouteInfo (Some (Scenario.R Scenario.straight)) 2
  = {| RemainingRouteInfo.distance := 0; RemainingRouteInfo.duration := 0 |} /\
  exists st,
    nth_error (NavigationRoute.steps (Scenario.R Scenario.straight)) 1 = Some st /\
    getCurrentInstruction (Some (Scenario.R Scenario.straight)) 1
    = NavigationStep.instruction st.
Proof.
  split; [|split].
  - apply (proj1 (route_lookups_are_safe None 3)). reflexivity.
  - apply (proj1 (proj2 (proj2 (route_lookups_are_safe
             (Some (Scenario.R Scenario.straight)) 2) _ eq_refl))).
    cbn. lia.
  - apply (proj2 (proj2 (proj2 (route_lookups_are_safe
             (Some (Scenario.R Scenario.straight)) 1) _ eq_refl))).
    cbn. lia.
Defined.

Lemma hookInv_apply (h : UseNavigation.t) (op : UseNavigation.Op) :
  hookInv (UseNavigation.state h) -> hookInv (UseNavigation.state (UseNavigation.apply h op)).
Proof.
  unfold hookInv. intros H.
  destruct op as [env o d ws response| | |i| |]; cbn [UseNavigation.apply].
  - unfold UseNavigation.calculateRouteToDestination.
    destruct (String.eqb _ ""); [exact H|].
    destruct response as [r|]; [|exact H]. cbn. now left.
  - unfold UseNavigation.startNavigation.
    destruct (NavigationState.route (UseNavigation.state h)) as [r|] eqn:Hr.
    + cbn. rewrite Hr. exact H.
    + rewrite Hr. exact H.
  - cbn. destruct (NavigationState.route (UseNavigation.state h)); [now left | now split].
  - unfold UseNavigation.updateCurrentStep.
    destruct (NavigationState.route (UseNavigation.state h)) as [r|] eqn:Hr.
    + destruct ((i >=? 0)%Z && (i <? Z.of_nat (List.length (NavigationRoute.steps r)))%Z)
        eqn:Hg.
      * cbn. rewrite Hr. apply andb_true_iff in Hg. destruct Hg as [Hg1 Hg2].
        apply Z.geb_le in Hg1. apply Z.ltb_lt in Hg2. right. lia.
      * rewrite Hr. exact H.
    + rewrite Hr. exact H.
  - unfold UseNavigation.nextStep.
    destruct (NavigationState.route (UseNavigation.state h)) as [r|] eqn:Hr.
    + destruct (NavigationState.currentStepIndex (UseNavigation.state h) + 1
                <? Z.of_nat (List.length (NavigationRoute.steps r)))%Z eqn:Hlt.
      * unfold UseNavigation.updateCurrentStep. rewrite Hr.
        apply Z.ltb_lt in Hlt.
        destruct ((NavigationState.currentStepIndex (UseNavigation.state h) + 1 >=? 0)%Z
                  && (NavigationState.currentStepIndex (UseNavigation.state h) + 1
                      <? Z.of_nat (List.length (NavigationRoute.steps r)))%Z) eqn:Hg.
        -- cbn. rewrite Hr. apply andb_true_iff in Hg. destruct Hg as [Hg1 _].
           apply Z.geb_le in Hg1. right. lia.
        -- rewrite Hr. exact H.
      * cbn. rewrite Hr. now left.
    + rewrite Hr. exact H.
  - cbn. now split.
Qed.

Lemma hookInv_run (ops : list UseNavigation.Op) :
  hookInv (UseNavigation.state (UseNavigation.run ops)).
Proof.
  unfold UseNavigation.run.
  induction ops as [|op ops IH] using rev_ind.
  - cbn. now split.
  - rewrite fold_left_app. cbn [fold_left]. now apply hookInv_apply.
Qed.

(** X15. After any sequence of calls of the functions of [useNavigation],
    each made on the state rendered after the previous call and with
    integer step indices: without a route the step index is 0 and
    navigation is inactive; with a route that has steps, the step index is
    the index of one of them, so the current instruction is that step's
    instruction. Two calls made within one render are outside this
    statement. *)
Theorem hook_step_index_in_range (ops : list UseNavigation.Op) :
  let h := UseNavigation.run ops in
  let s := UseNavigation.state h in
  (NavigationState.route s = None ->
     NavigationState.currentStepIndex s = 0%Z /\ NavigationState.isActive s = false) /\
  (forall r, NavigationState.route s = Some r -> NavigationRoute.steps r <> [] ->
     exists st,
       nth_error (NavigationRoute.steps r) (Z.to_nat (NavigationState.currentStepIndex s))
       = Some st /\
       UseNavigation.getCurrentInstructionText h = NavigationStep.instruction st).
Proof.
  cbv zeta. pose proof (hookInv_run ops) as H. unfold hookInv in H.
  split.
  - intros Hr. now rewrite Hr in H.
  - intros r Hr Hne. rewrite Hr in H.
    assert (Hlen : (0 < List.length (NavigationRoute.steps r))%nat)
      by (destruct (NavigationRoute.steps r); [contradiction | cbn; lia]).
    assert (Hrange : (0 <= NavigationState.currentStepIndex
                            (UseNavigation.state (UseNavigation.run ops))
                      < Z.of_nat (List.length (NavigationRoute.steps r)))%Z)
      by (destruct H as [-> | H]; lia).
    destruct (nth_error (NavigationRoute.steps r)
                (Z.to_nat (NavigationState.currentStepIndex
                             (UseNavigation.state (UseNavigation.run ops)))))
      as [st|] eqn:Hn.
    + exists st. split; [reflexivity|].
      unfold UseNavigation.getCurrentInstructionText, getCurrentInstruction.
      rewrite Hr.
      replace (_ <? 0)%Z with false by (symmetry; apply Z.ltb_ge; lia).
      replace (_ >=? _)%Z with false
        by (symmetry; rewrite Z.geb_leb; apply Z.leb_gt; lia).
      cbn [orb]. now rewrite Hn.
    + apply nth_error_None in Hn. lia.
Qed.

Lemma hook_step_index_in_range_witness :
  let h := UseNavigation.run
             [UseNavigation.CalculateRouteToDestination (Some "pk.token"%string)
                (0, 0) (0, 0.01) [] (Some (Scenario.R Scenario.straight));
              UseNavigation.StartNavigation; UseNavigation.NextStep;
              UseNavigation.UpdateCurrentStep 7] in
  exists st,
    nth_error (NavigationRoute.steps (Scenario.R Scenario.straight))
      (Z.to_nat (NavigationState.currentStepIndex (UseNavigation.state h))) = Some st /\
    UseNavigation.getCurrentInstructionText h = NavigationStep.instruction st.
Proof.
  cbv zeta.
  apply (proj2 (hook_step_index_in_range
           [UseNavigation.CalculateRouteToDestination (Some "pk.token"%string)
              (0, 0) (0, 0.01) [] (Some (Scenario.R Scenario.straight));
            UseNavigation.StartNavigation; UseNavigation.NextStep;
            UseNavigation.UpdateCurrentStep 7])
         (Scenario.R Scenario.straight)).
  - reflexivity.
  - discriminate.
Defined.

Lemma nextStep_advances (h : UseNavigation.t) (r : NavigationRoute.t) :
  NavigationState.route (UseNavigation.state h) = Some r ->
  (0 <= NavigationState.currentStepIndex (UseNavigation.state h))%Z ->
  (NavigationState.currentStepIndex (UseNavigation.state h) + 1
   < Z.of_nat (List.length (NavigationRoute.steps r)))%Z ->
  UseNavigation.nextStep h
  = UseNavigation.setState
      (UseNavigation.with_currentStepIndex
         (NavigationState.currentStepIndex (UseNavigation.state h) + 1)) h.
Proof.
  intros Hr H0 Hlt. unfold UseNavigation.nextStep, UseNavigation.updateCurrentStep.
  rewrite Hr.
  replace (_ <? _)%Z with true by (symmetry; now apply Z.ltb_lt).
  replace (_ >=? 0)%Z with true by (symmetry; apply Z.geb_le; lia).
  reflexivity.
Qed.

Lemma nextStep_iter (k : nat) (h : UseNavigation.t) (r : NavigationRoute.t) :
  NavigationState.route (UseNavigation.state h) = Some r ->
  NavigationState.currentStepIndex (UseNavigation.state h) = 0%Z ->
  (k < List.length (NavigationRoute.steps r))%nat ->
  Nat.iter k UseNavigation.nextStep h
  = UseNavigation.setState (UseNavigation.with_currentStepIndex (Z.of_nat k)) h.
Proof.
  intros Hr H0. induction k as [|k IH]; intros Hk.
  - change (Nat.iter 0 UseNavigation.nextStep h) with h.
    destruct h as [[a b c d e f] g i]. cbn in *. now subst.
  - rewrite Nat.iter_succ. rewrite IH by lia.
    rewrite (nextStep_advances _ r); cbn; try assumption; try lia.
    unfold UseNavigation.setState, UseNavigation.with_currentStepIndex. cbn.
    do 3 f_equal. lia.
Qed.

(** X16. On a route of [n >= 1] steps, starting at step 0, [k < n] calls
    of [nextStep] lead to step [k] and change nothing else; the [n]-th call
    stops the navigation and puts the step index back to 0, keeping the
    route. *)
Theorem nextStep_walks_the_route (h : UseNavigation.t) (r : NavigationRoute.t) (k : nat) :
  NavigationState.route (UseNavigation.state h) = Some r ->
  NavigationState.currentStepIndex (UseNavigation.state h) = 0%Z ->
  (k < List.length (NavigationRoute.steps r))%nat ->
  Nat.iter k UseNavigation.nextStep h
  = UseNavigation.setState (UseNavigation.with_currentStepIndex (Z.of_nat k)) h /\
  Nat.iter (List.length (NavigationRoute.steps r)) UseNavigation.nextStep h
  = UseNavigation.setState
      (fun s => UseNavigation.with_currentStepIndex 0 (UseNavigation.with_isActive false s)) h.
Proof.
  intros Hr H0 Hk. split; [now apply (nextStep_iter k h r)|].
  destruct (List.length (NavigationRoute.steps r)) as [|n] eqn:Hlen; [lia|].
  rewrite Nat.iter_succ. rewrite (nextStep_iter n h r) by (try assumption; lia).
  unfold UseNavigation.nextStep. cbn. rewrite Hr, Hlen.
  replace (Z.of_nat n + 1 <? Z.of_nat (S n))%Z with false
    by (symmetry; apply Z.ltb_ge; lia).
  reflexivity.
Qed.

Lemma nextStep_walks_the_route_witness :
  let h := UseNavigation.run
             [UseNavigation.CalculateRouteToDestination (Some "pk.token"%string)
                (0, 0) (0, 0.01) [] (Some (Scenario.R Scenario.straight));
              UseNavigation.StartNavigation] in
  NavigationState.currentStepIndex
    (UseNavigation.state (Nat.iter 1 UseNavigation.nextStep h)) = 1%Z /\
  NavigationState.isActive
    (UseNavigation.state (Nat.iter 2 UseNavigation.nextStep h)) = false.
Proof.
  cbv zeta.
  destruct (nextStep_walks_the_route
              (UseNavigation.run
                 [UseNavigation.CalculateRouteToDestination (Some "pk.token"%string)
                    (0, 0) (0, 0.01) [] (Some (Scenario.R Scenario.straight));
                  UseNavigation.StartNavigation])
              (Scenario.R Scenario.straight) 1 eq_refl eq_refl) as [H1 H2].
  - cbn. lia.
  - rewrite H1. change (List.length (NavigationRoute.steps (Scenario.R Scenario.straight)))
      with 2%nat in H2. rewrite H2. split; reflexivity.
Defined.

(** ** The geolocation hook *)

Lemma tracking_iff_watch_apply (h : UseGeolocation.t) (op : UseGeolocation.Op) :
  (GeolocationState.isTracking (UseGeolocation.state h) = true <->
   UseGeolocation.watchIdRef h <> None) ->
  (GeolocationState.isTracking (UseGeolocation.state (UseGeolocation.apply h op)) = true <->
   UseGeolocation.watchIdRef (UseGeolocation.apply h op) <> None).
Proof.
  intros H. destruct op as [outcome|supported watch|position|err|];
    cbn [UseGeolocation.apply].
  - destruct outcome; exact H.
  - unfold UseGeolocation.startTracking.
    destruct (UseGeolocation.watchIdRef h) as [id|] eqn:Hw; [now rewrite Hw|].
    destruct supported; cbn.
    + destruct watch; cbn; split; congruence.
    + split; [|congruence]. intros Ht. apply H in Ht. congruence.
  - exact H.
  - unfold UseGeolocation.errorCallback.
    destruct (GeolocationPositionError.code err =? 3)%Z; cbn; [exact H|].
    split; congruence.
  - cbn. split; congruence.
Qed.

(** X17. After any sequence of permission checks, starts, position fixes,
    errors and stops, the hook reports [isTracking] exactly when a position
    watch is registered; and a timeout error (code 3) records the error
    and changes nothing else, so tracking goes on. *)
Theorem tracking_iff_watch (ops : list UseGeolocation.Op) :
  let h := UseGeolocation.run ops in
  (GeolocationState.isTracking (UseGeolocation.state h) = true <->
   UseGeolocation.watchIdRef h <> None) /\
  (forall err, GeolocationPositionError.code err = 3%Z ->
     let h' := UseGeolocation.errorCallback err h in
     UseGeolocation.watchIdRef h' = UseGeolocation.watchIdRef h /\
     GeolocationState.isTracking (UseGeolocation.state h')
     = GeolocationState.isTracking (UseGeolocation.state h) /\
     GeolocationState.position (UseGeolocation.state h')
     = GeolocationState.position (UseGeolocation.state h) /\
     GeolocationState.permissionGranted (UseGeolocation.state h')
     = GeolocationState.permissionGranted (UseGeolocation.state h) /\
     GeolocationState.error (UseGeolocation.state h') = Some err).
Proof.
  cbv zeta. split.
  - unfold UseGeolocation.run. induction ops as [|op ops IH] using rev_ind.
    + cbn. split; congruence.
    + rewrite fold_left_app. cbn [fold_left]. now apply tracking_iff_watch_apply.
  - intros err Hcode. unfold UseGeolocation.errorCallback. rewrite Hcode. cbn.
    repeat split.
Qed.

Lemma tracking_iff_watch_witness :
  let h := UseGeolocation.run
             [UseGeolocation.CheckPermission (UseGeolocation.Queried true);
              UseGeolocation.StartTracking true (Some 4%nat)] in
  let err := {| GeolocationPositionError.code := 3;
                GeolocationPositionError.message := "Timeout expired" |} in
  UseGeolocation.watchIdRef (UseGeolocation.errorCallback err h) = Some 4%nat /\
  GeolocationState.isTracking (UseGeolocation.state (UseGeolocation.errorCallback err h))
  = true.
Proof.
  cbv zeta.
  destruct (proj2 (tracking_iff_watch
              [UseGeolocation.CheckPermission (UseGeolocation.Queried true);
               UseGeolocation.StartTracking true (Some 4%nat)])
            {| GeolocationPositionError.code := 3;
               GeolocationPositionError.message := "Timeout expired" |} eq_refl)
    as (H1 & H2 & _).
  rewrite H1, H2. split; reflexivity.
Defined.

(** ** What every run keeps of the navigation state *)

Lemma navInv_initial : navInv initialNavigationState.
Proof. split; [discriminate | intros r H; discriminate]. Qed.

Lemma navInv_setRerouting (b : bool) (p : Provider) :
  navInv (navigationState p) -> navInv (navigationState (setRerouting b p)).
Proof. intros H. exact H. Qed.

Lemma navInv_updateRoute (now : float) (r : NavigationRoute.t) (p : Provider) :
  navInv (navigationState (updateRoute now r p)).
Proof. split; cbn; [discriminate | intros r0 _; now left]. Qed.

Lemma navInv_processLocationUpdate (M : JS.MathLib) (now : float) (loc : LocationPoint)
    (p : Provider) :
  navInv (navigationState p) -> navInv (navigationState (processLocationUpdate M now loc p)).
Proof.
  intros Hinv.
  assert (Hcases : route (navigationState p) = None \/
                   exists r, route (navigationState p) = Some r)
    by (destruct (route (navigationState p)); eauto).
  destruct Hcases as [Hr | [r Hr]].
  { unfold processLocationUpdate. now rewrite Hr. }
  assert (Hcases : nth_error (NavigationRoute.steps r)
                     (currentStepIndex (navigationState p)) = None \/
                   exists st, nth_error (NavigationRoute.steps r)
                                (currentStepIndex (navigationState p)) = Some st)
    by (destruct (nth_error _ _); eauto).
  destruct Hcases as [Hst | [st Hst]].
  { assert (Hsame : processLocationUpdate M now loc p = p).
    { unfold processLocationUpdate. rewrite Hr.
      destruct (NavigationRoute.steps r); [reflexivity|]. now rewrite Hst. }
    now rewrite Hsame. }
  rewrite (processLocationUpdate_unfold M now loc p r st Hr Hst).
  match goal with |- context [if ?c then endNavigation p else _] => destruct c end.
  - apply navInv_initial.
  - assert (Hlen : (currentStepIndex (navigationState p)
                    < List.length (NavigationRoute.steps r))%nat)
      by (apply nth_error_Some; congruence).
    match goal with |- context [updateNavigationProgress _ _ _ ?i ?q] =>
      assert (Hq : route (navigationState q) = Some r)
        by (rewrite setOffRoute_if_route; exact Hr);
      assert (Hidx : (i < List.length (NavigationRoute.steps r))%nat)
    end.
    { destruct ((_ <? 30) && (Z.of_nat _ <? lastIndex r)%Z) eqn:Hadv; [|exact Hlen].
      apply andb_true_iff in Hadv. destruct Hadv as [_ Hadv].
      now apply lastIndex_lt in Hadv. }
    split.
    + intros _. cbn. rewrite Hq. cbn. congruence.
    + intros r0. cbn. rewrite Hq. cbn. intros Hr0. injection Hr0 as <-. right. exact Hidx.
Qed.

Lemma navInv_watchLocation (M : JS.MathLib) (now : float) (cur : option LocationPoint)
    (st : Provider * option LocationPoint) :
  navInv (navigationState (fst st)) ->
  navInv (navigationState (fst (watchLocation M now cur st))).
Proof.
  intros H. unfold watchLocation. destruct cur as [loc|]; [|exact H].
  destruct (sameLocation (snd st) loc); [exact H|].
  cbn [fst]. now apply navInv_processLocationUpdate.
Qed.

Lemma navInv_render (M : JS.MathLib) (w : World) : navInv (nav w) -> navInv (nav (render M w)).
Proof.
  intros H.
  assert (Heff : forall w1 v1, nav w1 = nav w -> provider w1 = provider w ->
            navInv (nav (runEffects M w1 v1))).
  { intros w1 v1 Hn Hp. unfold runEffects, nav. cbn [provider set_view set_provider].
    unfold locationEffect.
    destruct (ranWith LocationDeps_eqb _ _); cbn [fst].
    - rewrite Hp. exact H.
    - apply navInv_watchLocation. cbn [fst]. rewrite Hp. exact H. }
  unfold render. destruct (view w) as [v|]; destruct (is_active w);
    try exact H; now apply Heff.
Qed.

Lemma navInv_handle (w : World) (e : Event) : navInv (nav w) -> navInv (nav (handle w e)).
Proof.
  intros H. destruct e; cbn [handle]; try exact H.
  - (* TimerFire *)
    unfold timerFire. destruct (view w) as [v|]; [|exact H].
    destruct (rerouteTimeout v) as [tm|]; [|exact H].
    destruct (deadline tm <=? clock w)%Z; [|exact H].
    unfold handleReroute. destruct (timerDestination tm); [|exact H].
    destruct (isReroutingRef _); [exact H|].
    destruct (String.eqb _ ""); exact H.
  - (* Resolve *)
    unfold resolve. destruct (nth_error (pending w) k); [|exact H].
    unfold nav. cbn [provider]. apply navInv_setRerouting.
    destruct newRoute as [r|]; [apply navInv_updateRoute | exact H].
  - apply navInv_initial.
  - split; cbn; [discriminate | intros r0 _; now left].
  - unfold nav. cbn [provider set_provider]. unfold startActiveNavigation.
    destruct (route (navigationState (provider w))) as [r|] eqn:Hr; cbn [completed].
    + destruct H as [_ Hi]. split; cbn.
      * intros _. unfold nav in *. congruence.
      * intros r0 Hr0. apply Hi. exact Hr0.
    + exact H.
Qed.

Lemma navInv_run (M : JS.MathLib) (t0 : Z) (env : option string) (evs : list Event) :
  navInv (nav (run M (initialWorld t0 env) evs)).
Proof.
  induction evs as [|e evs IH] using rev_ind.
  - apply navInv_initial.
  - rewrite run_snoc. unfold step.
    destruct e; try (destruct (stableb _); [now apply navInv_handle | exact IH]).
    now apply navInv_render.
Qed.

(** X3. In every run from page load, whenever the mode is [active] a
    route is set: no sequence of position fixes, timeouts, responses and
    user actions leaves active navigation without a route. *)
Theorem active_mode_has_route (M : JS.MathLib) (t0 : Z) (env : option string)
    (evs : list Event) :
  let w := run M (initialWorld t0 env) evs in
  mode (nav w) = active -> exists r, route (nav w) = Some r.
Proof.
  cbv zeta. intros Hm.
  destruct (navInv_run M t0 env evs) as [H _].
  destruct (route (nav (run M (initialWorld t0 env) evs))) as [r|] eqn:Hr.
  - now exists r.
  - exfalso. now apply H.
Qed.

Lemma active_mode_has_route_witness :
  exists r, route (nav (run Scenario.M Scenario.w0 Scenario.rerouteTrace)) = Some r.
Proof.
  apply (active_mode_has_route Scenario.M 0 (Some "pk.token"%string) Scenario.rerouteTrace).
  vm_compute. reflexivity.
Defined.

Lemma processLocationUpdateIn_rendered (M : JS.MathLib) (now : float)
    (loc : LocationPoint) (p : Provider) :
  processLocationUpdateIn M now loc (navigationState p) p
  = processLocationUpdate M now loc p.
Proof. reflexivity. Qed.

Lemma updateNavigationProgress_route (now : float) (c : Coord) (d : float) (i : nat)
    (p : Provider) :
  route (navigationState (updateNavigationProgress now c d i p))
  = route (navigationState p).
Proof. cbn. destruct (route (navigationState p)) eqn:E; [reflexivity | exact E]. Qed.

Lemma setOffRoute_if_mode (b c : bool) (p : Provider) :
  mode (navigationState (if b then p else setOffRoute c p)) = mode (navigationState p).
Proof. destruct b; reflexivity. Qed.

(** X4. [processLocationUpdate], created in a render that saw a route and
    a step index naming one of its steps, either ends the navigation or
    stores an index that is the rendered one or one more and names a step
    of that rendered route. It stores it by a functional update on the
    state that is current when the effect runs, whose route and mode it
    keeps: the index names a step of the current route when that is still
    the rendered route, and need not when a route response was handled in
    between. *)
Theorem step_index_in_rendered_route (M : JS.MathLib) (now : float)
    (loc : LocationPoint) (s : ActiveNavigationState) (p : Provider)
    (r : NavigationRoute.t) :
  route s = Some r ->
  (currentStepIndex s < List.length (NavigationRoute.steps r))%nat ->
  let p' := processLocationUpdateIn M now loc s p in
  let i' := currentStepIndex (navigationState p') in
  p' = endNavigation p \/
  (route (navigationState p') = route (navigationState p) /\
   mode (navigationState p') = mode (navigationState p) /\
   (route (navigationState p) <> None ->
    (currentStepIndex s <= i' <= S (currentStepIndex s))%nat /\
    (i' < List.length (NavigationRoute.steps r))%nat)).
Proof.
  intros Hr Hi. cbv zeta. unfold processLocationUpdateIn. rewrite Hr.
  assert (Hlen : (List.length (NavigationRoute.steps r) <> 0)%nat) by lia.
  destruct (nth_error (NavigationRoute.steps r) (currentStepIndex s)) as [st|] eqn:Hst.
  2:{ apply nth_error_None in Hst. lia. }
  destruct (NavigationRoute.steps r) as [|st0 sts] eqn:Hsteps; [contradiction|].
  cbv zeta.
  match goal with |- context [if ?c then endNavigation p else _] => destruct c end.
  - now left.
  - right.
    match goal with |- context [updateNavigationProgress now ?c ?d ?i ?q] =>
      remember d as nd eqn:Hnd; clear Hnd;
      remember i as ni eqn:Hni; remember q as q1 eqn:Hq1
    end.
    assert (Hq : route (navigationState q1) = route (navigationState p) /\
                 mode (navigationState q1) = mode (navigationState p)).
    { subst q1. split; [apply setOffRoute_if_route | apply setOffRoute_if_mode]. }
    destruct Hq as [Hqr Hqm].
    assert (Hrange : (currentStepIndex s <= ni <= S (currentStepIndex s))%nat /\
                     (ni < List.length (st0 :: sts))%nat).
    { subst ni.
      destruct (Z.of_nat (currentStepIndex s) <? lastIndex r)%Z eqn:E.
      - apply lastIndex_lt in E. rewrite Hsteps in E.
        match goal with |- context [if ?b then _ else _] => destruct b end; lia.
      - rewrite andb_false_r. lia. }
    rewrite updateNavigationProgress_route, updateNavigationProgress_mode.
    split; [exact Hqr|]. split; [exact Hqm|].
    intros Hsome.
    destruct (route (navigationState q1)) as [r1|] eqn:Hr1; [|congruence].
    rewrite (updateNavigationProgress_index now _ nd ni q1 r1 Hr1).
    exact Hrange.
Qed.

(** The view was rendered at step 0 of the two-step route; a response
    with a one-step route is handled before its effect runs. *)
Lemma step_index_in_rendered_route_witness :
  let s := navigationState (Scenario.started 0 Scenario.straight) in
  let p := updateRoute 5 Scenario.R' (Scenario.started 0 Scenario.straight) in
  let p' := processLocationUpdateIn Scenario.M 1000 (Scenario.sample 0 0.0039 1) s p in
  route (navigationState p') = Some Scenario.R' /\
  (currentStepIndex (navigationState p')
   < List.length (NavigationRoute.steps (Scenario.R Scenario.straight)))%nat /\
  currentStepIndex (navigationState p') = 1%nat /\
  List.length (NavigationRoute.steps Scenario.R') = 1%nat.
Proof.
  cbv zeta.
  destruct (step_index_in_rendered_route Scenario.M 1000 (Scenario.sample 0 0.0039 1)
              (navigationState (Scenario.started 0 Scenario.straight))
              (updateRoute 5 Scenario.R' (Scenario.started 0 Scenario.straight))
              (Scenario.R Scenario.straight))
    as [Hend | (H1 & _ & H3)].
  - reflexivity.
  - cbn. lia.
  - exfalso. apply (f_equal (fun q => mode (navigationState q))) in Hend.
    vm_compute in Hend. discriminate.
  - split; [rewrite H1; reflexivity|].
    split; [apply H3; discriminate|].
    split; [vm_compute; reflexivity | reflexivity].
Defined.

(** ** More on the running view *)

Lemma sample_settles_in_two_renders_witness :
  let w := run Scenario.M Scenario.w0 Scenario.startSession in
  let w' := run Scenario.M w [SetPosition (Scenario.sample 0 0.0039 5); Render; Render] in
  stableb w' = true /\
  (currentStepIndex (nav w') <= S (currentStepIndex (nav w)))%nat /\
  routingCalls w' = routingCalls w.
Proof.
  apply (sample_settles_in_two_renders Scenario.M
           (run Scenario.M Scenario.w0 Scenario.startSession)
           (Scenario.sample 0 0.0039 5)); vm_compute; reflexivity.
Defined.

(** X2. Outside active mode no view is mounted, and a position fix only
    updates the page's position: the provider, the pending requests and
    the count of routing calls are as they were. *)
Theorem position_ignored_outside_active_mode (M : JS.MathLib) (w : World)
    (loc : LocationPoint) :
  stableb w = true -> is_active w = false ->
  let w' := run M w [SetPosition loc; Render] in
  provider w' = provider w /\ view w' = None /\ position w' = Some loc /\
  pending w' = pending w /\ routingCalls w' = routingCalls w /\ stableb w' = true.
Proof.
  intros Hs Ha. cbv zeta. unfold run. cbn [fold_left].
  assert (H1 : step M w (SetPosition loc) = handle w (SetPosition loc))
    by (unfold step; now rewrite Hs).
  rewrite H1. cbn [handle step].
  assert (Hv : view w = None).
  { unfold stableb in Hs. destruct (view w); [|reflexivity].
    rewrite Ha in Hs. discriminate. }
  unfold render. cbn [view]. rewrite Hv.
  match goal with |- context [is_active ?x] => change (is_active x) with (is_active w) end.
  rewrite Ha.
  split; [reflexivity|]. split; [reflexivity|]. split; [reflexivity|].
  split; [reflexivity|]. split; [reflexivity|].
  unfold stableb. cbn [view].
  match goal with |- context [is_active ?x] => change (is_active x) with (is_active w) end.
  now rewrite Ha.
Qed.

Lemma position_ignored_outside_active_mode_witness :
  let w := run Scenario.M Scenario.w0
             [SetPreviewRoute (Scenario.R Scenario.straight) Scenario.dest (0, 0); Render] in
  let w' := run Scenario.M w [SetPosition (Scenario.sample 0 0.0039 5); Render] in
  provider w' = provider w /\ view w' = None.
Proof.
  cbv zeta.
  destruct (position_ignored_outside_active_mode Scenario.M
              (run Scenario.M Scenario.w0
                 [SetPreviewRoute (Scenario.R Scenario.straight) Scenario.dest (0, 0); Render])
              (Scenario.sample 0 0.0039 5)) as (H1 & H2 & _).
  - vm_compute. reflexivity.
  - vm_compute. reflexivity.
  - split; assumption.
Defined.

(** X5. In every run from page load the mounted view has at most one
    reroute request of its own in flight, and has one exactly when its
    [isReroutingRef] is set. *)
Theorem one_request_per_view (M : JS.MathLib) (t0 : Z) (env : option string)
    (evs : list Event) (v : View) :
  let w := run M (initialWorld t0 env) evs in
  view w = Some v ->
  (List.length (ownPending (viewId v) (pending w)) <= 1)%nat /\
  (isReroutingRef v = true <-> ownRequestPending w).
Proof.
  cbv zeta. intros Hv.
  pose proof (refInv_run M t0 env evs) as Href.
  split.
  - destruct Href as [_ H]. destruct (H v Hv) as [_ Hc]. rewrite Hc.
    destruct (isReroutingRef v); lia.
  - rewrite (ownRequestPending_ref _ Href). split.
    + intros Hr. now exists v.
    + intros (v1 & Hv1 & Hr). congruence.
Qed.

Lemma one_request_per_view_witness :
  let w := run Scenario.M Scenario.w0 Scenario.secondSessionTrace in
  exists v, view w = Some v /\
    (List.length (ownPending (viewId v) (pending w)) <= 1)%nat.
Proof.
  cbv zeta.
  destruct (view (run Scenario.M Scenario.w0 Scenario.secondSessionTrace))
    as [v|] eqn:Hv.
  - exists v. split; [reflexivity|].
    apply (proj1 (one_request_per_view Scenario.M 0 (Some "pk.token"%string)
                    Scenario.secondSessionTrace v Hv)).
  - vm_compute in Hv. discriminate.
Defined.

Lemma getMapboxToken_unset (env : option string) :
  env = None \/ env = Some ""%string \/ env = Some "your_mapbox_token_here"%string ->
  getMapboxToken env = ""%string.
Proof. intros [-> | [-> | ->]]; reflexivity. Qed.

(** X6. When no Mapbox token is configured (the variable is unset, empty
    or still the placeholder), the reroute timeout of an off-route view
    fires without calling the routing collaborator: no request is added,
    the timeout is consumed, [isReroutingRef] stays clear, and both the
    rerouting and the off-route flag end up false. *)
Theorem missing_token_makes_no_call (M : JS.MathLib) (w : World) (v : View) (tm : Timer)
    (dest : SelectedLocation.t) :
  stableb w = true ->
  view w = Some v -> rerouteTimeout v = Some tm -> (deadline tm <= clock w)%Z ->
  timerDestination tm = Some dest -> isReroutingRef v = false ->
  NEXT_PUBLIC_MAPBOX_TOKEN w = None \/
  NEXT_PUBLIC_MAPBOX_TOKEN w = Some ""%string \/
  NEXT_PUBLIC_MAPBOX_TOKEN w = Some "your_mapbox_token_here"%string ->
  let w' := step M w TimerFire in
  routingCalls w' = routingCalls w /\ pending w' = pending w /\
  isRerouting (nav w') = false /\ isOffRoute (nav w') = false /\
  view w' = Some (set_rerouteTimeout None v) /\
  route (nav w') = route (nav w) /\ mode (nav w') = mode (nav w) /\
  currentStepIndex (nav w') = currentStepIndex (nav w).
Proof.
  intros Hs Hv Htm Hd Hdest Href Henv. cbv zeta.
  unfold step. rewrite Hs. cbn [handle]. unfold timerFire. rewrite Hv, Htm.
  replace (deadline tm <=? clock w)%Z with true by (symmetry; now apply Z.leb_le).
  unfold handleReroute. rewrite Hdest. cbn [isReroutingRef set_rerouteTimeout].
  rewrite Href. cbn [NEXT_PUBLIC_MAPBOX_TOKEN set_view].
  rewrite (getMapboxToken_unset _ Henv). cbn [String.eqb].
  repeat split.
Qed.

Lemma missing_token_makes_no_call_witness :
  let w := run Scenario.M (initialWorld 0 None) Scenario.beforeFire in
  let w' := step Scenario.M w TimerFire in
  routingCalls w' = 0%nat /\ pending w' = [] /\
  isRerouting (nav w') = false /\ isOffRoute (nav w') = false.
Proof.
  cbv zeta.
  destruct (view (run Scenario.M (initialWorld 0 None) Scenario.beforeFire))
    as [v|] eqn:Hv; [|vm_compute in Hv; discriminate].
  destruct (rerouteTimeout v) as [tm|] eqn:Htm.
  2:{ vm_compute in Hv. injection Hv as <-. discriminate. }
  destruct (missing_token_makes_no_call Scenario.M
              (run Scenario.M (initialWorld 0 None) Scenario.beforeFire) v tm Scenario.dest)
    as (H1 & H2 & H3 & H4 & _).
  - vm_compute. reflexivity.
  - exact Hv.
  - exact Htm.
  - vm_compute in Hv. injection Hv as <-. injection Htm as <-. vm_compute. discriminate.
  - vm_compute in Hv. injection Hv as <-. injection Htm as <-. reflexivity.
  - vm_compute in Hv. injection Hv as <-. reflexivity.
  - left. reflexivity.
  - rewrite H1, H2, H3, H4. repeat split.
Defined.

(** X18. Every new position fix restarts the reroute timeout: in a settled
    view that is off route and not rerouting, delivering a position and
    rendering once leaves a timeout due 3000 ms from now, carrying the new
    position, whatever was due before. *)
Theorem position_restarts_timeout (M : JS.MathLib) (w : World) (v : View)
    (loc : LocationPoint) :
  stableb w = true -> view w = Some v ->
  isOffRoute (nav w) = true -> isRerouting (nav w) = false ->
  let w' := run M w [SetPosition loc; Render] in
  exists v', view w' = Some v' /\
    rerouteTimeout v'
    = Some {| deadline := clock w + 3000;
              timerLocation := loc;
              timerDestination := destination (nav w) |}.
Proof.
  intros Hs Hv Hoff Hre. cbv zeta. unfold run. cbn [fold_left].
  assert (H1 : step M w (SetPosition loc) = handle w (SetPosition loc))
    by (unfold step; now rewrite Hs).
  rewrite H1. cbn [handle step].
  destruct (stableb_view w v Hs Hv) as (Hact & Hrd & _).
  set (w1 := {| provider := provider w; position := Some loc |}).
  assert (Hv1 : view w1 = Some v) by exact Hv.
  destruct (render_mounted M w1 v Hv1 Hact) as (v' & Hr & Hv' & _).
  rewrite Hr. exists v'. split; [reflexivity|].
  rewrite Hv'.
  destruct (locationEffect_cases M w1 (rerouteEffect w1 v)) as (Ht & _).
  rewrite Ht. unfold rerouteEffect.
  assert (Hran : ranWith RerouteDeps_eqb (rerouteDeps v) (rerouteDepsOf w1) = false).
  { rewrite Hrd. cbn [ranWith]. unfold RerouteDeps_eqb, rerouteDepsOf.
    cbn [dep_currentLocation positionGen w1].
    replace (Nat.eqb (positionGen w) (S (positionGen w))) with false
      by (symmetry; apply Nat.eqb_neq; lia).
    now rewrite andb_false_r. }
  rewrite Hran. cbn [rerouteTimeout].
  change (nav w1) with (nav w). rewrite Hoff, Hre. reflexivity.
Qed.

Lemma position_restarts_timeout_witness :
  let w := run Scenario.M Scenario.w0 Scenario.beforeFire in
  let w' := run Scenario.M w [SetPosition (Scenario.sample 0.001 0.0031 9); Render] in
  exists v', view w' = Some v' /\ option_map deadline (rerouteTimeout v') = Some 6000%Z.
Proof.
  cbv zeta.
  destruct (view (run Scenario.M Scenario.w0 Scenario.beforeFire)) as [v|] eqn:Hv;
    [|vm_compute in Hv; discriminate].
  destruct (position_restarts_timeout Scenario.M
              (run Scenario.M Scenario.w0 Scenario.beforeFire) v
              (Scenario.sample 0.001 0.0031 9)) as (v' & Hv' & Ht).
  - vm_compute. reflexivity.
  - exact Hv.
  - vm_compute. reflexivity.
  - vm_compute. reflexivity.
  - exists v'. split; [exact Hv'|]. rewrite Ht. reflexivity.
Defined.

Lemma processLocationUpdate_isRerouting (M : JS.MathLib) (now : float)
    (loc : LocationPoint) (p : Provider) :
  isRerouting (navigationState p) = false ->
  isRerouting (navigationState (processLocationUpdate M now loc p)) = false.
Proof.
  intros H.
  assert (Hcases : route (navigationState p) = None \/
                   exists r, route (navigationState p) = Some r)
    by (destruct (route (navigationState p)); eauto).
  destruct Hcases as [Hr | [r Hr]].
  { unfold processLocationUpdate. now rewrite Hr. }
  assert (Hcases : nth_error (NavigationRoute.steps r)
                     (currentStepIndex (navigationState p)) = None \/
                   exists st, nth_error (NavigationRoute.steps r)
                                (currentStepIndex (navigationState p)) = Some st)
    by (destruct (nth_error _ _); eauto).
  destruct Hcases as [Hst | [st Hst]].
  { unfold processLocationUpdate. rewrite Hr.
    destruct (NavigationRoute.steps r); [exact H|]. now rewrite Hst. }
  rewrite (processLocationUpdate_unfold M now loc p r st Hr Hst).
  match goal with |- context [if ?c then endNavigation p else _] => destruct c end.
  - reflexivity.
  - match goal with |- context [updateNavigationProgress _ _ _ _ ?q] =>
      assert (Hq : isRerouting (navigationState q) = false)
        by (match goal with |- context [if ?b then _ else _] => destruct b end; exact H);
      assert (Hqr : route (navigationState q) = Some r)
        by (rewrite setOffRoute_if_route; exact Hr)
    end.
    cbn. rewrite Hqr. cbn. exact Hq.
Qed.

(** X7. Whatever a pending [calculateRoute] resolves to, in a settled
    world of any run, once the response is handled and rendered the
    rerouting flag is false, no reroute timeout is pending, the request is
    gone from the pending ones without a new call, and the view that made
    the request has its [isReroutingRef] clear again. *)
Theorem response_releases_guard (M : JS.MathLib) (t0 : Z) (env : option string)
    (evs : list Event) (k : nat) (rq : PendingReroute)
    (newRoute : option NavigationRoute.t) :
  let w := run M (initialWorld t0 env) evs in
  stableb w = true -> nth_error (pending w) k = Some rq ->
  let w' := run M w [Resolve k newRoute; Render] in
  isRerouting (nav w') = false /\
  routingCalls w' = routingCalls w /\
  pending w' = remove_nth k (pending w) /\
  forall v', view w' = Some v' ->
    rerouteTimeout v' = None /\
    (caller rq = viewId v' -> isReroutingRef v' = false).
Proof.
  cbv zeta. set (w := run M (initialWorld t0 env) evs). intros Hs Hk.
  pose proof (timerInv_run M t0 env evs) as Htimer. fold w in Htimer.
  unfold run at 1 2 3 4. cbn [fold_left].
  assert (H1 : step M w (Resolve k newRoute) = handle w (Resolve k newRoute))
    by (unfold step; now rewrite Hs).
  rewrite H1. cbn [handle step].
  destruct (resolve_cases k newRoute w) as [Hsame | (rq' & Hk' & C1 & C2 & _ & C4)].
  { exfalso. unfold resolve in Hsame. rewrite Hk in Hsame.
    apply (f_equal pending) in Hsame. cbn in Hsame.
    assert (Hlen : List.length (remove_nth k (pending w)) = List.length (pending w))
      by now rewrite Hsame.
    pose proof (ownPending_remove_nth (caller rq) k (pending w) rq Hk) as Hc.
    rewrite Hsame, Nat.eqb_refl in Hc. lia. }
  assert (rq' = rq) by congruence. subst rq'.
  set (w1 := resolve k newRoute w) in *.
  assert (Hre1 : isRerouting (nav w1) = false /\ isOffRoute (nav w1) = false /\
                 is_active w1 = is_active w).
  { unfold w1, resolve. rewrite Hk. unfold nav, is_active, nav. cbn [provider].
    destruct newRoute; repeat split. }
  destruct Hre1 as (Hre1 & Hoff1 & Hact1).
  destruct (render_frame M w1) as (F1 & _ & F3 & _).
  split; [|split; [congruence | split; [congruence|]]].
  - (* the rerouting flag *)
    destruct (view w) as [v|] eqn:Hv.
    + destruct (stableb_view w v Hs Hv) as (Hact & _).
      set (v1 := if Nat.eqb (viewId v) (caller rq) then set_isReroutingRef false v else v).
      assert (Hv1 : view w1 = Some v1).
      { rewrite C4. unfold v1. now destruct (Nat.eqb (viewId v) (caller rq)). }
      assert (Hact1' : is_active w1 = true) by congruence.
      destruct (render_mounted M w1 v1 Hv1 Hact1') as (v2 & Hr & _).
      rewrite Hr. unfold nav. cbn [provider].
      destruct (locationEffect_cases M w1 (rerouteEffect w1 v1))
        as (_ & _ & _ & [[-> _] | (loc & _ & _ & -> & _)]);
        [exact Hre1 | now apply processLocationUpdate_isRerouting].
    + unfold stableb in Hs. rewrite Hv in Hs. apply negb_true_iff in Hs.
      unfold render. rewrite C4, Hact1, Hs. exact Hre1.
  - (* the timeout and the ref *)
    intros v' Hv'.
    destruct (view w) as [v|] eqn:Hv.
    2:{ exfalso.
        unfold stableb in Hs. rewrite Hv in Hs. apply negb_true_iff in Hs.
        unfold render in Hv'. rewrite C4, Hact1, Hs in Hv'. congruence. }
    destruct (stableb_view w v Hs Hv) as (Hact & Hrd & _).
    set (v1 := if Nat.eqb (viewId v) (caller rq) then set_isReroutingRef false v else v).
    assert (Hv1 : view w1 = Some v1).
    { rewrite C4. unfold v1. now destruct (Nat.eqb (viewId v) (caller rq)). }
    assert (Hact1' : is_active w1 = true) by congruence.
    destruct (render_mounted M w1 v1 Hv1 Hact1') as (v2 & Hr & Hv2 & _).
    rewrite Hr in Hv'. cbn [view] in Hv'. injection Hv' as <-.
    destruct (locationEffect_frame M w1 (rerouteEffect w1 v1)) as (L1 & L2 & L3 & _).
    destruct (rerouteEffect_frame w1 v1) as (G1 & _ & G3 & _).
    rewrite Hv2.
    split.
    + destruct (locationEffect_cases M w1 (rerouteEffect w1 v1)) as (-> & _).
      destruct (rerouteTimeout (rerouteEffect w1 v1)) as [tm|] eqn:Htm; [|reflexivity].
      exfalso.
      destruct (rerouteEffect_timer w1 v1 tm Htm) as [[K1 K2] | (_ & K & _)];
        [|congruence].
      assert (Htmv : rerouteTimeout v = Some tm)
        by (unfold v1 in K1; destruct (Nat.eqb (viewId v) (caller rq)); exact K1).
      pose proof (Htimer v tm Hv Htmv Hrd) as Hsince.
      apply offRouteSince_flag in Hsince. fold w in Hsince.
      assert (Hdeps : rerouteDeps v1 = rerouteDeps v)
        by (unfold v1; destruct (Nat.eqb (viewId v) (caller rq)); reflexivity).
      assert (Heq : rerouteDepsOf w = rerouteDepsOf w1) by congruence.
      apply rerouteDepsOf_isOffRoute in Heq. congruence.
    + intros Hc. rewrite L3, G3. unfold v1.
      replace (Nat.eqb (viewId v) (caller rq)) with true.
      * reflexivity.
      * symmetry. apply Nat.eqb_eq. rewrite L1, G1 in Hc. unfold v1 in Hc.
        destruct (Nat.eqb (viewId v) (caller rq)); cbn in Hc; congruence.
Qed.

Lemma response_releases_guard_witness :
  let w := run Scenario.M Scenario.w0 Scenario.rerouteTrace in
  let w' := run Scenario.M w [Resolve 0 None; Render] in
  isRerouting (nav w') = false /\ routingCalls w' = routingCalls w /\ pending w' = [].
Proof.
  cbv zeta.
  destruct (response_releases_guard Scenario.M 0 (Some "pk.token"%string)
              Scenario.rerouteTrace 0
              {| request :=
                   {| RouteRequest.origin := (0.001, 0.003);
                      RouteRequest.destination := (0, 0.01) |};
                 caller := 0 |} None) as (H1 & H2 & H3 & _).
  - vm_compute. reflexivity.
  - vm_compute. reflexivity.
  - split; [exact H1|]. split; [exact H2|]. refine (eq_trans H3 _). vm_compute. reflexivity.
Defined.
